(** * The chat server's message store and prompt assembly (server.py)

    A shallow embedding of [save_message], [get_history], [start_session],
    [history] and [chat], with the SQLite table as a list of rows in rowid
    order and the Python exceptions as an explicit outcome. *)

From Stdlib Require Import String Ascii.
From Stdlib Require Import List ZArith NArith Lia Bool.
From Stdlib Require Import Permutation Sorted.
Import ListNotations.
Local Open Scope Z_scope.

(** ** Python strings

    A Python [str] is a sequence of Unicode code points. *)

Definition str := list N.

Definition lit (s : string) : str :=
  map N_of_ascii (list_ascii_of_string s).

Fixpoint str_eqb (a b : str) : bool :=
  match a, b with
  | [], [] => true
  | x :: a', y :: b' => (x =? y)%N && str_eqb a' b'
  | _, _ => false
  end.

(** [str.isspace] on one code point: the characters [str.strip()] removes. *)
Definition isspace (c : N) : bool :=
  (((9 <=? c) && (c <=? 13)) || ((28 <=? c) && (c <=? 32))
   || (c =? 133) || (c =? 160) || (c =? 5760)
   || ((8192 <=? c) && (c <=? 8202))
   || (c =? 8232) || (c =? 8233) || (c =? 8239) || (c =? 8287)
   || (c =? 12288))%N.

Fixpoint lstrip (s : str) : str :=
  match s with
  | [] => []
  | c :: r => if isspace c then lstrip r else s
  end.

Definition rstrip (s : str) : str := rev (lstrip (rev s)).

Definition strip (s : str) : str := rstrip (lstrip s).

(** [sep.join(parts)] *)
Definition join (sep : str) (parts : list str) : str :=
  match parts with
  | [] => []
  | p :: rest => p ++ flat_map (fun q => sep ++ q) rest
  end.

Definition newline : str := [10%N].

(** A [str] can be encoded as UTF-8, and so bound to a statement of
    SQLite, unless it holds a surrogate code point; the [sqlite3] module
    raises [UnicodeEncodeError] when asked to bind one that does. *)
Definition encodable (s : str) : bool :=
  forallb (fun c => negb ((55296 <=? c) && (c <=? 57343))%N) s.

(** [str(u)] for a UUID [u], given as its 128-bit integer: the 32 lower-case
    hexadecimal digits of the integer, in groups of 8, 4, 4, 4 and 12
    separated by hyphens. *)
Definition hex_digit (d : N) : N :=
  if (d <? 10)%N then (48 + d)%N else (87 + d)%N.

Fixpoint hex (digits : nat) (n : N) : str :=
  match digits with
  | O => []
  | S k => hex k (n / 16)%N ++ [hex_digit (n mod 16)%N]
  end.

Definition uuid_str (u : N) : str :=
  let h := hex 32 u in
  firstn 8 h ++ lit "-" ++ firstn 4 (skipn 8 h) ++ lit "-"
  ++ firstn 4 (skipn 12 h) ++ lit "-" ++ firstn 4 (skipn 16 h) ++ lit "-"
  ++ skipn 20 h.

(** ** The [messages] table *)

Record Row := mkRow {
  row_id : str;            (* id TEXT PRIMARY KEY *)
  row_session_id : str;    (* session_id TEXT NOT NULL *)
  row_role : str;          (* role TEXT NOT NULL *)
  row_content : str;       (* content TEXT NOT NULL *)
  row_created_at : Z       (* created_at INTEGER NOT NULL *)
}.

(** What [get_history] selects from a row: the dict with keys
    [role], [content], [created_at]. *)
Record Msg := mkMsg {
  role : str;
  content : str;
  created_at : Z
}.

Definition select_columns (r : Row) : Msg :=
  mkMsg (row_role r) (row_content r) (row_created_at r).

(** ** The world the server runs in

    [messages] is the table in rowid order, which is insertion order since
    rows are never deleted.  [uuid_calls] and [time_calls] count the draws
    made so far from [uuid.uuid4()] and [time.time()]; [prompts] records the
    prompts handed to the provider, oldest first.  Clock readings are epoch
    seconds and are taken to fit SQLite's integers. *)
Record World := mkWorld {
  messages : list Row;
  uuid_calls : nat;
  time_calls : nat;
  prompts : list str
}.

Inductive exn :=
| TypeError
| OverflowError
| UnicodeEncodeError
| IntegrityError
| HTTPException (status_code : Z) (detail : str).

Inductive outcome (A : Type) :=
| Return (a : A)
| Raise (e : exn).
Arguments Return {A} a.
Arguments Raise {A} e.

(** A computation changes the world and then returns or raises; what it
    committed before raising stays committed. *)
Definition M (A : Type) : Type := World -> outcome A * World.

Definition ret {A} (a : A) : M A := fun w => (Return a, w).

Definition bind {A B} (m : M A) (k : A -> M B) : M B :=
  fun w =>
    match m w with
    | (Return a, w') => k a w'
    | (Raise e, w') => (Raise e, w')
    end.

Definition raise {A} (e : exn) : M A := fun w => (Raise e, w).

Notation "x <- m ;; k" := (bind m (fun x => k))
  (at level 61, m at next level, right associativity).
Notation "m ;;; k" := (bind m (fun _ => k))
  (at level 61, right associativity).

(** What the provider call inside [try] comes to: the response's text, or
    an exception [e], of which the handler only uses [str(e)]. *)
Inductive provider_result :=
| Reply (response_text : str)
| Fails (e : str).

(** SQLite stores INTEGER in 64 bits; the [sqlite3] module raises
    [OverflowError] when asked to bind a Python int outside that range. *)
Definition fits_int64 (z : Z) : bool :=
  (- 2 ^ 63 <=? z) && (z <? 2 ^ 63).

(** [ORDER BY created_at DESC] with a [LIMIT]: SQLite keeps the selected rows
    in an index keyed by [created_at] descending and then by arrival, so a
    row goes after every row already there whose [created_at] is greater or
    equal. *)
Fixpoint insert_desc (r : Row) (sorted : list Row) : list Row :=
  match sorted with
  | [] => [r]
  | x :: rest =>
      if row_created_at r <=? row_created_at x
      then x :: insert_desc r rest
      else r :: sorted
  end.

Definition order_by_created_at_desc (scan : list Row) : list Row :=
  fold_left (fun sorted r => insert_desc r sorted) scan [].

(** [LIMIT n]: a negative [n] puts no bound on the number of rows. *)
Definition sql_limit {A} (n : Z) (rows : list A) : list A :=
  if n <? 0 then rows else firstn (Z.to_nat n) rows.

(** [WHERE session_id = ?] *)
Definition where_session (session_id : str) (table : list Row) : list Row :=
  filter (fun r => str_eqb (row_session_id r) session_id) table.

(** [SELECT role, content, created_at FROM messages WHERE session_id = ?
     ORDER BY created_at DESC LIMIT ?] *)
Definition select_recent (session_id : str) (n : Z) (table : list Row)
  : list Msg :=
  map select_columns
    (sql_limit n (order_by_created_at_desc (where_session session_id table))).

Definition greeting : str :=
  lit "Hello! I'm ready to help. Ask me anything.".

Definition user : str := lit "user".
Definition assistant : str := lit "assistant".

(** Identifiers drawn one after the other are fresh when each differs from
    the ones already taken and from the ones drawn before it. *)
Fixpoint fresh_ids (draws taken : list str) : bool :=
  match draws with
  | [] => true
  | i :: rest =>
      negb (existsb (str_eqb i) taken) && fresh_ids rest (i :: taken)
  end.

(** [x or d] on an optional integer: [None] and [0] are falsy. *)
Definition or_int (x : option Z) (d : Z) : Z :=
  match x with
  | None => d
  | Some 0 => d
  | Some n => n
  end.

Record ChatRequest := mkChatRequest {
  session_id : option str;
  text : str;
  history_limit : option Z
}.

Record ChatResponse := mkChatResponse {
  resp_session_id : str;
  reply : str
}.

(** The three strings [save_message] is given can all be encoded. *)
Definition storable (session_id role content : str) : bool :=
  encodable session_id && encodable role && encodable content.

(** The session a request names, if it names one, can be encoded. *)
Definition session_id_encodable (payload : ChatRequest) : bool :=
  match session_id payload with
  | Some s => encodable s
  | None => true
  end.

Section Server.

(** The process's surroundings: the [k]-th UUID [uuid.uuid4()] yields, as
    its 128-bit integer, the [k]-th reading of [int(time.time())], and what
    the provider does with the prompt of its [k]-th call. *)
Variable uuid4 : nat -> N.
Variable time_time : nat -> Z.
Variable create_text : nat -> str -> provider_result.

(** [str(uuid.uuid4())] *)
Definition call_uuid4 : M str := fun w =>
  (Return (uuid_str (uuid4 (uuid_calls w))),
   mkWorld (messages w) (S (uuid_calls w)) (time_calls w) (prompts w)).

Definition call_time : M Z := fun w =>
  (Return (time_time (time_calls w)),
   mkWorld (messages w) (uuid_calls w) (S (time_calls w)) (prompts w)).

(** [INSERT INTO messages ...] followed by [commit]: the four strings are
    bound first, which fails on one that cannot be encoded; then the
    primary key refuses an [id] the table already holds. *)
Definition insert_row (r : Row) : M unit := fun w =>
  if negb (encodable (row_id r) && encodable (row_session_id r)
           && encodable (row_role r) && encodable (row_content r))
  then (Raise UnicodeEncodeError, w)
  else if existsb (str_eqb (row_id r)) (map row_id (messages w))
  then (Raise IntegrityError, w)
  else (Return tt,
        mkWorld (messages w ++ [r]) (uuid_calls w) (time_calls w) (prompts w)).

(** [genai.create_text(model=..., prompt=prompt, ...)], then [.text]. *)
Definition call_create_text (prompt : str) : M provider_result := fun w =>
  (Return (create_text (length (prompts w)) prompt),
   mkWorld (messages w) (uuid_calls w) (time_calls w)
           (prompts w ++ [prompt])).

(** [save_message] has no [return]: its caller gets Python's [None],
    written [None] here, where [Some r] would be a returned row. *)
Definition save_message (session_id role content : str) : M (option Row) :=
  mid <- call_uuid4 ;;
  now <- call_time ;;
  insert_row (mkRow mid session_id role content now) ;;;
  ret None.

(** [limit] is whatever the caller passes: an int, or [None] when [chat]
    forwards an explicit null.  [limit * 2] is computed before the
    statement runs; then [session_id] is bound, then the doubled limit. *)
Definition get_history (session_id : str) (limit : option Z)
  : M (list Msg) := fun w =>
  match limit with
  | None => (Raise TypeError, w)              (* None * 2 *)
  | Some n =>
      if negb (encodable session_id)
      then (Raise UnicodeEncodeError, w)
      else if fits_int64 (n * 2)
      then let rows := select_recent session_id (n * 2) (messages w) in
           (Return (rev rows), w)
      else (Raise OverflowError, w)
  end.

Definition start_session : M str :=
  sid <- call_uuid4 ;;
  save_message sid assistant greeting ;;;
  ret sid.

Definition history (session_id : str) (limit : Z) : M (list Msg) :=
  get_history session_id (Some limit).

(** [chat], line 107: [payload.session_id or str(uuid.uuid4())]; the empty
    string is falsy too. *)
Definition resolve_session (payload : ChatRequest) : M str :=
  match session_id payload with
  | Some (c :: s) => ret (c :: s)
  | _ => call_uuid4
  end.

(** [chat], lines 111-114: seed the greeting when the session shows no
    message. *)
Definition seed_history (sid : str) (payload : ChatRequest)
  : M (list Msg) :=
  history <- get_history sid (Some (or_int (history_limit payload) 10)) ;;
  if (length history =? 0)%nat
  then save_message sid assistant greeting ;;;
       get_history sid (Some (or_int (history_limit payload) 10))
  else ret history.

(** [chat], lines 125-130: the line of one message. *)
Definition prompt_line (m : Msg) : str :=
  let content := strip (content m) in
  if str_eqb (role m) user
  then lit "User: " ++ content
  else lit "Assistant: " ++ content.

(** [chat], lines 123-132: the loop appends one line per message, then the
    new user message is appended as it came. *)
Definition prompt_lines (convo : list Msg) (text : str) : list str :=
  fold_left (fun lines m => lines ++ [prompt_line m]) convo []
  ++ [lit "User: " ++ text].

(** [chat], line 133 *)
Definition prompt (convo : list Msg) (text : str) : str :=
  join newline (prompt_lines convo text) ++ newline ++ lit "Assistant:".

Definition chat (payload : ChatRequest) : M ChatResponse :=
  sid <- resolve_session payload ;;
  seed_history sid payload ;;;
  save_message sid user (text payload) ;;;
  convo <- get_history sid (history_limit payload) ;;
  r <- call_create_text (prompt convo (text payload)) ;;
  match r with
  | Fails e => raise (HTTPException 500 (lit "Model error: " ++ e))
  | Reply ai_text =>
      save_message sid assistant ai_text ;;;
      ret (mkChatResponse sid ai_text)
  end.

(** The row [save_message] writes in world [w]. *)
Definition next_row (sid role content : str) (w : World) : Row :=
mkRow (uuid_str (uuid4 (uuid_calls w))) sid role content
      (time_time (time_calls w)).

Definition after_save (r : Row) (w : World) : World :=
mkWorld (messages w ++ [r]) (S (uuid_calls w)) (S (time_calls w))
        (prompts w).

(** The world after a [save_message] that raised: nothing written, one
  identifier and one clock reading used up. *)
Definition after_failed_save (w : World) : World :=
mkWorld (messages w) (S (uuid_calls w)) (S (time_calls w)) (prompts w).

(** The next [k] identifiers [uuid4] yields are fresh for the table. *)
Definition draws_fresh (k : nat) (w : World) : bool :=
  fresh_ids (map (fun i => uuid_str (uuid4 i)) (seq (uuid_calls w) k))
            (map row_id (messages w)).

(** What a seeding step that went through has added to a table: nothing
  when the session had a row, the greeting when it had none. *)
Definition seeded (sid : str) (table seed : list Row) : Prop :=
(where_session sid table <> [] /\ seed = [])
\/ (where_session sid table = []
    /\ exists mid now, seed = [mkRow mid sid assistant greeting now]).

(** The session a request runs in: the one it names, or a new
  identifier when it names none or the empty string. *)
Definition resolved (payload : ChatRequest) (w : World) (sid : str) : Prop :=
match session_id payload with
| Some (c :: s) => sid = c :: s
| _ => sid = uuid_str (uuid4 (uuid_calls w))
end.

Definition user_turn (payload : ChatRequest) (sid mid : str) (now : Z)
: Row :=
mkRow mid sid user (text payload) now.

(** The prompt [chat] builds when the table is [table]. *)
Definition chat_prompt (payload : ChatRequest) (sid : str) (n : Z)
         (table : list Row) : str :=
prompt (rev (select_recent sid (n * 2) table)) (text payload).

(** The ways one request can go, each with its outcome, the table and
  the prompts sent when it ends. *)
Inductive chat_path (payload : ChatRequest) (w : World) (sid : str)
: outcome ChatResponse -> list Row -> list str -> Prop :=
| seed_read_unencodable :
  encodable sid = false ->
  chat_path payload w sid (Raise UnicodeEncodeError) (messages w) (prompts w)
| seed_read_overflows :
  encodable sid = true ->
  fits_int64 (or_int (history_limit payload) 10 * 2) = false ->
  chat_path payload w sid (Raise OverflowError) (messages w) (prompts w)
| seed_write_refused :
  encodable sid = true ->
  where_session sid (messages w) = [] ->
  chat_path payload w sid (Raise IntegrityError) (messages w) (prompts w)
| user_write_unencodable (seed : list Row) :
  seeded sid (messages w) seed ->
  encodable (text payload) = false ->
  chat_path payload w sid (Raise UnicodeEncodeError)
            (messages w ++ seed) (prompts w)
| user_write_refused (seed : list Row) :
  seeded sid (messages w) seed ->
  encodable (text payload) = true ->
  chat_path payload w sid (Raise IntegrityError)
            (messages w ++ seed) (prompts w)
| refetch_with_none (seed : list Row) (mid : str) (now : Z) :
  seeded sid (messages w) seed ->
  history_limit payload = None ->
  chat_path payload w sid (Raise TypeError)
            ((messages w ++ seed) ++ [user_turn payload sid mid now])
            (prompts w)
| provider_fails (seed : list Row) (mid : str) (now n : Z) (e : str) :
  let table := (messages w ++ seed) ++ [user_turn payload sid mid now] in
  seeded sid (messages w) seed ->
  history_limit payload = Some n ->
  fits_int64 (n * 2) = true ->
  create_text (length (prompts w)) (chat_prompt payload sid n table)
  = Fails e ->
  chat_path payload w sid
            (Raise (HTTPException 500 (lit "Model error: " ++ e)))
            table (prompts w ++ [chat_prompt payload sid n table])
| reply_write_unencodable (seed : list Row) (mid : str) (now n : Z)
                          (ai_text : str) :
  let table := (messages w ++ seed) ++ [user_turn payload sid mid now] in
  seeded sid (messages w) seed ->
  history_limit payload = Some n ->
  fits_int64 (n * 2) = true ->
  create_text (length (prompts w)) (chat_prompt payload sid n table)
  = Reply ai_text ->
  encodable ai_text = false ->
  chat_path payload w sid (Raise UnicodeEncodeError)
            table (prompts w ++ [chat_prompt payload sid n table])
| reply_write_refused (seed : list Row) (mid : str) (now n : Z)
                    (ai_text : str) :
  let table := (messages w ++ seed) ++ [user_turn payload sid mid now] in
  seeded sid (messages w) seed ->
  history_limit payload = Some n ->
  fits_int64 (n * 2) = true ->
  create_text (length (prompts w)) (chat_prompt payload sid n table)
  = Reply ai_text ->
  encodable ai_text = true ->
  chat_path payload w sid (Raise IntegrityError)
            table (prompts w ++ [chat_prompt payload sid n table])
| replied (seed : list Row) (mid : str) (now n : Z) (ai_text mid' : str)
        (now' : Z) :
  let table := (messages w ++ seed) ++ [user_turn payload sid mid now] in
  seeded sid (messages w) seed ->
  history_limit payload = Some n ->
  fits_int64 (n * 2) = true ->
  create_text (length (prompts w)) (chat_prompt payload sid n table)
  = Reply ai_text ->
  encodable ai_text = true ->
  chat_path payload w sid (Return (mkChatResponse sid ai_text))
            (table ++ [mkRow mid' sid assistant ai_text now'])
            (prompts w ++ [chat_prompt payload sid n table]).

(** A string neither starts nor ends with a character [strip] removes. *)
Definition no_space_at_ends (s : str) : Prop :=
  match s with
  | [] => True
  | c :: _ => isspace c = false /\ isspace (last s c) = false
  end.

Definition newer_first (a b : Row) : Prop :=
  row_created_at b <= row_created_at a.

Definition older_first (a b : Msg) : Prop :=
  created_at a <= created_at b.

Definition two_turns : World :=
  mkWorld [mkRow (lit "m1") (lit "s") assistant greeting 1;
           mkRow (lit "m2") (lit "s") user (lit "hi") 2] 0 0 [].

Definition one_turn : World :=
  mkWorld [mkRow (lit "m1") (lit "s") assistant greeting 1] 0 0 [].

Definition empty_world : World := mkWorld [] 0 0 [].

(** Sample surroundings: the UUIDs 0, 1, 2, ...; a clock that stays within
    one second; a provider that is down and one that answers. *)
Definition sample_uuid4 (k : nat) : N := N.of_nat k.

Definition same_second (k : nat) : Z := 1700000000.

Definition provider_down (k : nat) (prompt : str) : provider_result :=
  Fails (lit "quota exceeded").

Definition provider_up (k : nat) (prompt : str) : provider_result :=
  Reply (lit "Hi!").

(** A first request, naming no session, and the same with an explicit
    null for the limit. *)
Definition first_request : ChatRequest :=
  mkChatRequest None (lit "hi") (Some 10).


(** The same request with a blank before its text. *)
Definition padded_request : ChatRequest :=
  mkChatRequest None (lit " hi") (Some 10).

(** The prompt the first request sends on an empty table. *)
Definition first_prompt : str :=
  prompt [mkMsg user (lit "hi") 1700000000;
          mkMsg assistant greeting 1700000000] (lit "hi").

(** ** Configuration *)

(** [s.split(sep)] for a separator of one character: the pieces between
    the occurrences of [sep], empty pieces kept. *)
Fixpoint str_split (sep : N) (s : str) : list str :=
  match s with
  | [] => [[]]
  | c :: rest =>
      if (c =? sep)%N
      then [] :: str_split sep rest
      else match str_split sep rest with
           | [] => [[c]]
           | piece :: pieces => (c :: piece) :: pieces
           end
  end.

Definition comma : N := 44.

(** Line 16: [os.getenv("ALLOWED_ORIGINS", default).split(",")], where
    [getenv] is [None] when the variable is not set. *)
Definition ALLOWED_ORIGINS (getenv : option str) : list str :=
  str_split comma
    (match getenv with
     | Some v => v
     | None => lit "http://127.0.0.1:5500,http://localhost:5500"
     end).

(** ** Properties of tables *)

(** The primary key: no two rows share an [id]. *)
Definition ids_unique (table : list Row) : Prop :=
  NoDup (map row_id table).

(** The schema's note on [role]: ["user"] or ["assistant"]. *)
Definition roles_known (table : list Row) : Prop :=
  Forall (fun r => row_role r = user \/ row_role r = assistant) table.

(** A computation keeps a property of the table. *)
Definition keeps (P : list Row -> Prop) {A} (m : M A) : Prop :=
  forall w, P (messages w) -> P (messages (snd (m w))).

(** A property of tables that still holds after a row with a new [id] and
    one of the two roles is added at the end. *)
Definition survives_writes (P : list Row -> Prop) : Prop :=
  forall table r,
    P table ->
    ~ In (row_id r) (map row_id table) ->
    row_role r = user \/ row_role r = assistant ->
    P (table ++ [r]).

(** A clock that advances by a second at every reading, and a session of
    four turns. *)
Definition ticking_clock (k : nat) : Z := 1700000000 + Z.of_nat k.

Definition four_turns : World :=
  mkWorld [mkRow (lit "m1") (lit "s") assistant greeting 1;
           mkRow (lit "m2") (lit "s") user (lit "hi") 2;
           mkRow (lit "m3") (lit "s") assistant (lit "Hi!") 3;
           mkRow (lit "m4") (lit "s") user (lit "more") 4] 0 0 [].

Definition second_request : ChatRequest :=
  mkChatRequest (Some (lit "s")) (lit "and then?") (Some 10).


(** * Facts about strings and the prompt *)

Lemma str_eqb_refl (a : str) : str_eqb a a = true.
Proof.
  induction a as [|x a IH]; simpl; [reflexivity|].
  now rewrite N.eqb_refl, IH.
Qed.

Lemma str_eqb_eq (a b : str) : str_eqb a b = true <-> a = b.
Proof.
  split.
  - revert b; induction a as [|x a IH]; intros [|y b] H; simpl in H;
      try discriminate; [reflexivity|].
    apply andb_true_iff in H as [Hxy Hab].
    apply N.eqb_eq in Hxy. apply IH in Hab. now subst.
  - intros ->. apply str_eqb_refl.
Qed.

Lemma str_eqb_neq (a b : str) : str_eqb a b = false <-> a <> b.
Proof.
  split.
  - intros H E. apply str_eqb_eq in E. congruence.
  - intros H. destruct (str_eqb a b) eqn:E; [|reflexivity].
    apply str_eqb_eq in E. contradiction.
Qed.

Lemma lstrip_split (s : str) :
  exists l, s = l ++ lstrip s /\ forallb isspace l = true.
Proof.
  induction s as [|c s [l [E Hl]]]; simpl.
  - exists []. now split.
  - destruct (isspace c) eqn:Hc.
    + exists (c :: l). simpl. rewrite Hc, Hl. split; [now f_equal|reflexivity].
    + exists []. now split.
Qed.

Lemma lstrip_head (s : str) (c : N) (r : str) :
  lstrip s = c :: r -> isspace c = false.
Proof.
  induction s as [|d s IH]; simpl; [discriminate|].
  destruct (isspace d) eqn:Hd; [exact IH|].
  intros E. now inversion E; subst.
Qed.

Lemma rstrip_split (s : str) :
  exists r, s = rstrip s ++ r /\ forallb isspace r = true.
Proof.
  unfold rstrip. destruct (lstrip_split (rev s)) as [l [E Hl]].
  exists (rev l). split.
  - rewrite <- rev_app_distr, <- E. now rewrite rev_involutive.
  - rewrite forallb_forall in *. intros x Hx. apply Hl. now apply in_rev.
Qed.

Lemma rstrip_last (s : str) (d : N) :
  rstrip s <> [] -> isspace (last (rstrip s) d) = false.
Proof.
  unfold rstrip. destruct (lstrip (rev s)) as [|c r] eqn:E; [easy|].
  intros _. simpl. rewrite last_last. eapply lstrip_head; eauto.
Qed.

Lemma rstrip_head (s : str) (c : N) :
  isspace c = false -> rstrip (c :: s) = c :: rstrip s.
Proof.
  intros Hc. unfold rstrip. simpl.
  assert (G : forall t, lstrip (t ++ [c]) = lstrip t ++ [c]).
  { induction t as [|x t IH]; simpl; [now rewrite Hc|].
    destruct (isspace x); [exact IH|reflexivity]. }
  rewrite G, rev_app_distr. reflexivity.
Qed.

(** [strip] cuts a run of whitespace off each end and nothing else. *)
Lemma strip_trims (s : str) :
  (exists l r, s = l ++ strip s ++ r
               /\ forallb isspace l = true /\ forallb isspace r = true)
  /\ no_space_at_ends (strip s).
Proof.
  unfold strip. split.
  - destruct (lstrip_split s) as [l [El Hl]].
    destruct (rstrip_split (lstrip s)) as [r [Er Hr]].
    exists l, r. repeat split; try assumption. now rewrite <- Er.
  - destruct (lstrip s) as [|c t] eqn:E; [exact I|].
    pose proof (lstrip_head _ _ _ E) as Hc.
    pose proof (rstrip_last (c :: t) c) as Hl.
    rewrite (rstrip_head t c Hc) in *.
    split; [exact Hc|]. apply Hl. discriminate.
Qed.

Lemma strip_fixed (s : str) : no_space_at_ends s -> strip s = s.
Proof.
  destruct s as [|c t]; [reflexivity|]. intros [Hc Hl].
  unfold strip. simpl lstrip. rewrite Hc. unfold rstrip.
  destruct (rev (c :: t)) as [|d u] eqn:E.
  - apply (f_equal (@rev N)) in E. rewrite rev_involutive in E. discriminate.
  - assert (Hd : d = last (c :: t) c).
    { apply (f_equal (@rev N)) in E. rewrite rev_involutive in E.
      rewrite E. simpl. now rewrite last_last. }
    simpl. rewrite Hd, Hl, <- Hd, <- E. apply rev_involutive.
Qed.

Lemma loop_lines (convo : list Msg) (lines : list str) :
  fold_left (fun lines m => lines ++ [prompt_line m]) convo lines
  = lines ++ map prompt_line convo.
Proof.
  revert lines; induction convo as [|m convo IH]; intros lines; simpl.
  - now rewrite app_nil_r.
  - rewrite IH, <- app_assoc. reflexivity.
Qed.

Lemma prompt_lines_map (convo : list Msg) (text : str) :
  prompt_lines convo text = map prompt_line convo ++ [lit "User: " ++ text].
Proof. unfold prompt_lines. now rewrite loop_lines. Qed.

(** * Facts about the query *)

Section SortedLists.
Context {A : Type} (R : A -> A -> Prop).

Lemma StronglySorted_app_inv (l1 l2 : list A) :
  StronglySorted R (l1 ++ l2) ->
  StronglySorted R l1 /\ StronglySorted R l2
  /\ (forall x y, In x l1 -> In y l2 -> R x y).
Proof.
  induction l1 as [|a l1 IH]; simpl; intros H.
  - repeat split; [constructor|assumption|easy].
  - apply StronglySorted_inv in H as [Hs Hf].
    destruct (IH Hs) as (H1 & H2 & H12).
    rewrite Forall_app in Hf. destruct Hf as [Hf1 Hf2].
    repeat split; [now constructor|assumption|].
    intros x y [->|Hx] Hy; [|now apply H12].
    rewrite Forall_forall in Hf2. now apply Hf2.
Qed.

Lemma StronglySorted_app (l1 l2 : list A) :
  StronglySorted R l1 -> StronglySorted R l2 ->
  (forall x y, In x l1 -> In y l2 -> R x y) ->
  StronglySorted R (l1 ++ l2).
Proof.
  induction l1 as [|a l1 IH]; simpl; intros H1 H2 H12; [assumption|].
  apply StronglySorted_inv in H1 as [Hs Hf].
  constructor.
  - apply IH; auto.
  - rewrite Forall_app. split; [assumption|].
    rewrite Forall_forall. intros y Hy. apply H12; auto.
Qed.

End SortedLists.

Lemma StronglySorted_rev {A} (R : A -> A -> Prop) (l : list A) :
  StronglySorted R l -> StronglySorted (fun a b => R b a) (rev l).
Proof.
  induction 1 as [|a l Hs IH Hf]; simpl; [constructor|].
  apply StronglySorted_app; [assumption|repeat constructor|].
  intros x y Hx [<-|[]]. rewrite Forall_forall in Hf.
  apply Hf. now apply in_rev.
Qed.

Lemma StronglySorted_map {A B} (f : A -> B) (R : B -> B -> Prop) (l : list A) :
  StronglySorted (fun a b => R (f a) (f b)) l -> StronglySorted R (map f l).
Proof.
  induction 1 as [|a l Hs IH Hf]; simpl; constructor; [assumption|].
  rewrite Forall_map. exact Hf.
Qed.

Lemma insert_desc_perm (r : Row) (l : list Row) :
  Permutation (insert_desc r l) (r :: l).
Proof.
  induction l as [|x l IH]; simpl; [reflexivity|].
  destruct (row_created_at r <=? row_created_at x); [|reflexivity].
  rewrite IH. apply perm_swap.
Qed.

Lemma insert_desc_sorted (r : Row) (l : list Row) :
  StronglySorted newer_first l -> StronglySorted newer_first (insert_desc r l).
Proof.
  induction 1 as [|x l Hs IH Hf]; simpl; [repeat constructor|].
  destruct (row_created_at r <=? row_created_at x) eqn:E.
  - apply Z.leb_le in E. constructor; [assumption|].
    eapply Permutation_Forall; [symmetry; apply insert_desc_perm|].
    constructor; assumption.
  - apply Z.leb_gt in E. constructor; [now constructor|].
    constructor; [unfold newer_first; lia|].
    eapply Forall_impl; [|exact Hf]. unfold newer_first. intros; lia.
Qed.

Lemma order_by_loop_perm (scan sorted : list Row) :
  Permutation (fold_left (fun sorted r => insert_desc r sorted) scan sorted)
              (scan ++ sorted).
Proof.
  revert sorted; induction scan as [|r scan IH]; intros sorted; simpl.
  - reflexivity.
  - rewrite IH, insert_desc_perm. symmetry. apply Permutation_middle.
Qed.

Lemma order_by_perm (scan : list Row) :
  Permutation (order_by_created_at_desc scan) scan.
Proof.
  unfold order_by_created_at_desc.
  rewrite order_by_loop_perm. now rewrite app_nil_r.
Qed.

Lemma order_by_loop_sorted (scan sorted : list Row) :
  StronglySorted newer_first sorted ->
  StronglySorted newer_first
    (fold_left (fun sorted r => insert_desc r sorted) scan sorted).
Proof.
  revert sorted; induction scan as [|r scan IH]; intros sorted H; simpl.
  - assumption.
  - apply IH. now apply insert_desc_sorted.
Qed.

Lemma order_by_sorted (scan : list Row) :
  StronglySorted newer_first (order_by_created_at_desc scan).
Proof. apply order_by_loop_sorted. constructor. Qed.

Lemma order_by_length (scan : list Row) :
  length (order_by_created_at_desc scan) = length scan.
Proof. apply Permutation_length, order_by_perm. Qed.

(** Rows written at strictly increasing times come back newest first, that
    is, in the reverse of the order they were written in. *)
Lemma order_by_loop_increasing (scan sorted : list Row) :
  StronglySorted (fun a b => row_created_at a < row_created_at b) scan ->
  (forall x y, In x sorted -> In y scan ->
               row_created_at x < row_created_at y) ->
  fold_left (fun sorted r => insert_desc r sorted) scan sorted
  = rev scan ++ sorted.
Proof.
  revert sorted; induction scan as [|r scan IH]; intros sorted Hs Hlt; simpl.
  - reflexivity.
  - apply StronglySorted_inv in Hs as [Hs Hf].
    assert (E : insert_desc r sorted = r :: sorted).
    { destruct sorted as [|x sorted]; [reflexivity|]. simpl.
      specialize (Hlt x r (or_introl eq_refl) (or_introl eq_refl)).
      destruct (Z.leb_spec (row_created_at r) (row_created_at x));
        [lia|reflexivity]. }
    rewrite E, IH; [now rewrite <- app_assoc|assumption|].
    intros x y [<-|Hx] Hy.
    + rewrite Forall_forall in Hf. now apply Hf.
    + apply Hlt; [assumption|now right].
Qed.

Lemma order_by_increasing (scan : list Row) :
  StronglySorted (fun a b => row_created_at a < row_created_at b) scan ->
  order_by_created_at_desc scan = rev scan.
Proof.
  intros H. unfold order_by_created_at_desc.
  rewrite order_by_loop_increasing; [apply app_nil_r|assumption|easy].
Qed.

Lemma sql_limit_length {A} (n : Z) (rows : list A) :
  0 <= n -> length (sql_limit n rows) = Nat.min (Z.to_nat n) (length rows).
Proof.
  intros Hn. unfold sql_limit.
  destruct (Z.ltb_spec n 0); [lia|]. apply length_firstn.
Qed.

Lemma sql_limit_all {A} (n : Z) (rows : list A) :
  n < 0 \/ Z.of_nat (length rows) <= n -> sql_limit n rows = rows.
Proof.
  intros H. unfold sql_limit. destruct (Z.ltb_spec n 0); [reflexivity|].
  apply firstn_all2. lia.
Qed.

Lemma sql_limit_split {A} (n : Z) (rows : list A) :
  exists rest, rows = sql_limit n rows ++ rest.
Proof.
  unfold sql_limit. destruct (n <? 0).
  - exists []. now rewrite app_nil_r.
  - exists (skipn (Z.to_nat n) rows). now rewrite firstn_skipn.
Qed.

Lemma fits_int64_double (n : Z) :
  - 2 ^ 62 <= n < 2 ^ 62 -> fits_int64 (n * 2) = true.
Proof.
  intros H. unfold fits_int64.
  apply andb_true_iff; split; [apply Z.leb_le|apply Z.ltb_lt]; lia.
Qed.

Lemma get_history_run (sid : str) (n : Z) (w : World) :
  encodable sid = true -> fits_int64 (n * 2) = true ->
  get_history sid (Some n) w
  = (Return (rev (select_recent sid (n * 2) (messages w))), w).
Proof. intros Henc Hfit. unfold get_history. now rewrite Henc, Hfit. Qed.

Lemma get_history_unencodable (sid : str) (n : Z) (w : World) :
  encodable sid = false ->
  get_history sid (Some n) w = (Raise UnicodeEncodeError, w).
Proof. intros Henc. unfold get_history. now rewrite Henc. Qed.

(** What a read that binds its session and [n * 2] successfully returns,
    in terms of the session's rows: the limited rows reversed, the rest
    left out. *)
Lemma get_history_returns (sid : str) (n : Z) (w : World) :
  encodable sid = true ->
  fits_int64 (n * 2) = true ->
  exists items older,
    get_history sid (Some n) w = (Return items, w)
    /\ length items
       = length (sql_limit (n * 2) (where_session sid (messages w)))
    /\ StronglySorted older_first items
    /\ Permutation (map select_columns (where_session sid (messages w)))
                   (older ++ items)
    /\ (forall o i, In o older -> In i items -> created_at o <= created_at i)
    /\ (n < 0 \/ Z.of_nat (length (where_session sid (messages w))) <= n * 2
        -> older = []).
Proof.
  intros Henc Hfit. rewrite get_history_run by assumption.
  unfold select_recent.
  set (sorted := order_by_created_at_desc (where_session sid (messages w))).
  destruct (sql_limit_split (n * 2) sorted) as [rest Hsplit].
  pose proof (order_by_sorted (where_session sid (messages w))) as Hsorted.
  fold sorted in Hsorted. rewrite Hsplit in Hsorted.
  apply StronglySorted_app_inv in Hsorted as (Hs1 & _ & Hcross).
  exists (rev (map select_columns (sql_limit (n * 2) sorted))),
         (map select_columns rest).
  split; [reflexivity|]. split; [|split; [|split; [|split]]].
  - rewrite length_rev, length_map. unfold sql_limit.
    destruct (n * 2 <? 0); [apply order_by_length|].
    rewrite !length_firstn. unfold sorted. now rewrite order_by_length.
  - apply (StronglySorted_rev (fun a b => created_at b <= created_at a)).
    apply StronglySorted_map. exact Hs1.
  - rewrite <- (Permutation_rev (map select_columns _)).
    rewrite Permutation_app_comm, <- map_app, <- Hsplit.
    apply Permutation_map. symmetry. apply order_by_perm.
  - intros o i Ho Hi. apply in_rev in Hi.
    apply in_map_iff in Ho as (y & <- & Hy).
    apply in_map_iff in Hi as (x & <- & Hx).
    apply (Hcross x y Hx Hy).
  - intros Hall. rewrite sql_limit_all in Hsplit.
    + apply (f_equal (@length Row)) in Hsplit. rewrite length_app in Hsplit.
      destruct rest; [reflexivity|simpl in Hsplit; lia].
    + unfold sorted. rewrite order_by_length. lia.
Qed.

(** * How each operation changes the world *)

Arguments get_history : simpl never.
Arguments save_message : simpl never.
Arguments encodable : simpl never.
Arguments uuid_str : simpl never.

Lemma existsb_str_eqb (mid : str) (ids : list str) :
  existsb (str_eqb mid) ids = false <-> ~ In mid ids.
Proof.
  split.
  - intros H Hin. assert (G : existsb (str_eqb mid) ids = true).
    { apply existsb_exists. exists mid. split; [assumption|apply str_eqb_refl]. }
    congruence.
  - intros H. destruct (existsb (str_eqb mid) ids) eqn:E; [|reflexivity].
    apply existsb_exists in E as (x & Hx & Hxe).
    apply str_eqb_eq in Hxe. subst. contradiction.
Qed.

Lemma Forall_firstn_of {A} (P : A -> Prop) (k : nat) (l : list A) :
  Forall P l -> Forall P (firstn k l).
Proof.
  intros H. rewrite <- (firstn_skipn k l) in H.
  now apply Forall_app in H.
Qed.

Lemma Forall_skipn_of {A} (P : A -> Prop) (k : nat) (l : list A) :
  Forall P l -> Forall P (skipn k l).
Proof.
  intros H. rewrite <- (firstn_skipn k l) in H.
  now apply Forall_app in H.
Qed.

Lemma hex_ascii (digits : nat) (n : N) :
  Forall (fun c => (c < 128)%N) (hex digits n).
Proof.
  revert n; induction digits as [|k IH]; intros n; simpl; [constructor|].
  apply Forall_app. split; [apply IH|]. constructor; [|constructor].
  assert (n mod 16 < 16)%N by (apply N.mod_lt; discriminate).
  unfold hex_digit. destruct (N.ltb_spec (n mod 16) 10); lia.
Qed.

Lemma encodable_ascii (s : str) :
  Forall (fun c => (c < 128)%N) s -> encodable s = true.
Proof.
  intros H. unfold encodable. apply forallb_forall.
  rewrite Forall_forall in H. intros c Hc. specialize (H c Hc).
  apply negb_true_iff, andb_false_iff. left. apply N.leb_gt. lia.
Qed.

(** The text of a UUID can always be encoded. *)
Lemma uuid_str_encodable (u : N) : encodable (uuid_str u) = true.
Proof.
  apply encodable_ascii. unfold uuid_str. cbv zeta.
  pose proof (hex_ascii 32 u) as H.
  assert (Hd : Forall (fun c => (c < 128)%N) (lit "-"))
    by (constructor; [reflexivity|constructor]).
  repeat first [ exact Hd
               | exact H
               | apply Forall_firstn_of
               | apply Forall_skipn_of
               | apply Forall_app; split ].
Qed.

Lemma storable_user (sid content : str) :
  encodable sid = true -> storable sid user content = encodable content.
Proof. intros H. unfold storable. now rewrite H. Qed.

Lemma storable_assistant (sid content : str) :
  encodable sid = true -> storable sid assistant content = encodable content.
Proof. intros H. unfold storable. now rewrite H. Qed.

Lemma storable_split (sid role content : str) :
  storable sid role content = true <->
  encodable sid = true /\ encodable role = true /\ encodable content = true.
Proof. unfold storable. rewrite !andb_true_iff. tauto. Qed.

Lemma save_message_fresh (sid role content : str) (w : World) :
  ~ In (uuid_str (uuid4 (uuid_calls w))) (map row_id (messages w)) ->
  storable sid role content = true ->
  save_message sid role content w
  = (Return None, after_save (next_row sid role content w) w).
Proof.
  intros Hfresh Hstore. apply existsb_str_eqb in Hfresh.
  unfold storable in Hstore.
  unfold save_message, bind, call_uuid4, call_time, insert_row, ret.
  cbn [row_id row_session_id row_role row_content messages uuid_calls
       time_calls prompts].
  rewrite uuid_str_encodable. cbn [andb]. rewrite Hstore. cbn [negb].
  now rewrite Hfresh.
Qed.

Lemma save_message_collision (sid role content : str) (w : World) :
  In (uuid_str (uuid4 (uuid_calls w))) (map row_id (messages w)) ->
  storable sid role content = true ->
  save_message sid role content w
  = (Raise IntegrityError, after_failed_save w).
Proof.
  intros Hin Hstore. unfold storable in Hstore.
  unfold save_message, bind, call_uuid4, call_time, insert_row, ret.
  cbn [row_id row_session_id row_role row_content messages uuid_calls
       time_calls prompts].
  rewrite uuid_str_encodable. cbn [andb]. rewrite Hstore. cbn [negb].
  destruct (existsb _ _) eqn:E; [reflexivity|].
  apply existsb_str_eqb in E. contradiction.
Qed.

Lemma save_message_unencodable (sid role content : str) (w : World) :
  storable sid role content = false ->
  save_message sid role content w
  = (Raise UnicodeEncodeError, after_failed_save w).
Proof.
  intros Hstore. unfold storable in Hstore.
  unfold save_message, bind, call_uuid4, call_time, insert_row, ret.
  cbn [row_id row_session_id row_role row_content messages uuid_calls
       time_calls prompts].
  rewrite uuid_str_encodable. cbn [andb]. now rewrite Hstore.
Qed.

(** The three ways [save_message] can go. *)
Lemma save_message_run (sid role content : str) (w : World) :
  (storable sid role content = true
   /\ ~ In (uuid_str (uuid4 (uuid_calls w))) (map row_id (messages w))
   /\ save_message sid role content w
      = (Return None, after_save (next_row sid role content w) w))
  \/ (storable sid role content = false
      /\ save_message sid role content w
         = (Raise UnicodeEncodeError, after_failed_save w))
  \/ (storable sid role content = true
      /\ In (uuid_str (uuid4 (uuid_calls w))) (map row_id (messages w))
      /\ save_message sid role content w
         = (Raise IntegrityError, after_failed_save w)).
Proof.
  destruct (storable sid role content) eqn:Hstore.
  - destruct (in_dec (list_eq_dec N.eq_dec)
                (uuid_str (uuid4 (uuid_calls w))) (map row_id (messages w)))
      as [Hin|Hnew].
    + right. right. repeat split; [assumption|].
      now apply save_message_collision.
    + left. repeat split; [assumption|]. now apply save_message_fresh.
  - right. left. split; [reflexivity|]. now apply save_message_unencodable.
Qed.

(** Whatever [save_message] does, it leaves the rows there and the
    prompts as they were. *)
Lemma save_message_extends (sid role content : str) (w : World) :
  prompts (snd (save_message sid role content w)) = prompts w
  /\ (messages (snd (save_message sid role content w)) = messages w
      \/ messages (snd (save_message sid role content w))
         = messages w ++ [next_row sid role content w]).
Proof.
  destruct (save_message_run sid role content w)
    as [(_ & _ & ->)|[(_ & ->)|(_ & _ & ->)]]; simpl; auto.
Qed.

Lemma get_history_world (sid : str) (limit : option Z) (w : World) :
  snd (get_history sid limit w) = w.
Proof.
  unfold get_history. destruct limit as [n|]; [|reflexivity].
  destruct (encodable sid); [|reflexivity].
  now destruct (fits_int64 (n * 2)).
Qed.

(** A read that returns tells that its session could be bound, and its
    limit too. *)
Lemma get_history_returned (sid : str) (limit : option Z) (w : World)
                           (items : list Msg) :
  fst (get_history sid limit w) = Return items ->
  exists n, limit = Some n /\ encodable sid = true
            /\ fits_int64 (n * 2) = true
            /\ items = rev (select_recent sid (n * 2) (messages w)).
Proof.
  unfold get_history. destruct limit as [n|]; [|discriminate].
  destruct (encodable sid); [|discriminate].
  destruct (fits_int64 (n * 2)) eqn:Hfit; [|discriminate].
  simpl. intros E. injection E as <-. exists n. now repeat split.
Qed.

Lemma or_int_10_nonzero (x : option Z) : or_int x 10 <> 0.
Proof. destruct x as [[| |]|]; simpl; lia. Qed.

(** With a limit other than zero, the read is empty exactly when the
    session has no row. *)
Lemma get_history_empty (sid : str) (n : Z) (w : World) (items : list Msg) :
  n <> 0 ->
  get_history sid (Some n) w = (Return items, w) ->
  (items = [] <-> where_session sid (messages w) = []).
Proof.
  intros Hn Hrun. apply (f_equal fst) in Hrun.
  apply get_history_returned in Hrun as (n' & E & _ & _ & ->).
  injection E as <-. unfold select_recent.
  set (session := where_session sid (messages w)).
  pose proof (order_by_length session) as Hlen.
  split.
  - intros E. apply (f_equal (@length Msg)) in E.
    rewrite length_rev, length_map in E. simpl in E.
    unfold sql_limit in E. destruct (n * 2 <? 0) eqn:Hneg.
    + rewrite Hlen in E. now destruct session.
    + apply Z.ltb_ge in Hneg. rewrite length_firstn, Hlen in E.
      destruct session; [reflexivity|]. simpl in E. lia.
  - intros E. rewrite E. unfold sql_limit.
    destruct (n * 2 <? 0); [reflexivity|].
    now rewrite firstn_nil.
Qed.

(** The seeding step: what it adds, and how it can fail. *)
Lemma seed_history_run (sid : str) (payload : ChatRequest) (w : World) :
  exists seed,
    messages (snd (seed_history sid payload w)) = messages w ++ seed
    /\ prompts (snd (seed_history sid payload w)) = prompts w
    /\ match fst (seed_history sid payload w) with
       | Return _ =>
           seeded sid (messages w) seed
           /\ encodable sid = true
           /\ fits_int64 (or_int (history_limit payload) 10 * 2) = true
       | Raise e =>
           seed = []
           /\ ((e = UnicodeEncodeError /\ encodable sid = false)
               \/ (e = OverflowError /\ encodable sid = true
                   /\ fits_int64 (or_int (history_limit payload) 10 * 2)
                      = false)
               \/ (e = IntegrityError /\ encodable sid = true
                   /\ where_session sid (messages w) = []))
       end.
Proof.
  unfold seed_history, bind.
  set (n := or_int (history_limit payload) 10).
  destruct (encodable sid) eqn:Henc.
  2:{ rewrite (get_history_unencodable sid n w Henc).
      exists []. simpl. rewrite app_nil_r. repeat split. now left. }
  destruct (fits_int64 (n * 2)) eqn:Hfit.
  2:{ exists []. unfold get_history. rewrite Henc, Hfit. simpl.
      rewrite app_nil_r. repeat split. right. left. now repeat split. }
  rewrite (get_history_run sid n w Henc Hfit).
  destruct (rev (select_recent sid (n * 2) (messages w))) as [|m h] eqn:Hh.
  - assert (Hempty : where_session sid (messages w) = []).
    { apply (get_history_empty sid n w []);
        [apply or_int_10_nonzero| |reflexivity].
      now rewrite get_history_run, Hh. }
    cbn [length Nat.eqb].
    destruct (save_message_run sid assistant greeting w)
      as [(_ & _ & ->)|[(Hbad & _)|(_ & _ & ->)]].
    + rewrite (get_history_run sid n _ Henc Hfit).
      exists [next_row sid assistant greeting w]. simpl.
      repeat split. right. split; [assumption|].
      unfold next_row. eauto.
    + rewrite storable_assistant in Hbad by assumption. discriminate.
    + exists []. simpl. rewrite app_nil_r. repeat split.
      right. right. now repeat split.
  - exists []. simpl. rewrite app_nil_r. repeat split; try assumption.
    left. split; [|reflexivity]. intros E.
    apply (get_history_empty sid n w (m :: h)) in E;
      [discriminate|apply or_int_10_nonzero|].
    now rewrite get_history_run, Hh.
Qed.

Lemma resolve_session_run (payload : ChatRequest) (w : World) :
  exists sid w0,
    resolve_session payload w = (Return sid, w0)
    /\ resolved payload w sid
    /\ messages w0 = messages w /\ prompts w0 = prompts w.
Proof.
  unfold resolve_session, resolved.
  destruct (session_id payload) as [[|c s]|]; unfold ret, call_uuid4;
    eexists; eexists; repeat split.
Qed.

(** The session of a request can be encoded when the one it names can:
    the identifier drawn otherwise always can. *)
Lemma resolved_encodable (payload : ChatRequest) (w : World) (sid : str) :
  session_id_encodable payload = true ->
  resolved payload w sid -> encodable sid = true.
Proof.
  unfold session_id_encodable, resolved.
  destruct (session_id payload) as [[|c s]|]; intros H ->;
    solve [exact H|apply uuid_str_encodable].
Qed.

Lemma refetch_fits (payload : ChatRequest) (n : Z) :
  history_limit payload = Some n ->
  fits_int64 (or_int (history_limit payload) 10 * 2) = true ->
  fits_int64 (n * 2) = true.
Proof.
  intros -> H. destruct n; [reflexivity|exact H|exact H].
Qed.

Lemma chat_follows_path (payload : ChatRequest) (w : World) :
  exists sid,
    resolved payload w sid
    /\ chat_path payload w sid
         (fst (chat payload w))
         (messages (snd (chat payload w)))
         (prompts (snd (chat payload w))).
Proof.
  destruct (resolve_session_run payload w)
    as (sid & w0 & Hres & Hsid & Hm0 & Hp0).
  exists sid. split; [assumption|].
  unfold chat, bind. rewrite Hres.
  destruct (seed_history_run sid payload w0)
    as (seed & Hm1 & Hp1 & Hout1).
  rewrite Hm0 in *. rewrite Hp0 in *.
  destruct (seed_history sid payload w0) as [[h|e1] w1];
    simpl in Hm1, Hp1, Hout1.
  2:{ destruct Hout1 as [-> [[-> Henc]|[(-> & Henc & Hfit)|(-> & Henc & He)]]];
        rewrite app_nil_r in Hm1; simpl; rewrite Hm1, Hp1;
        [now apply seed_read_unencodable|now apply seed_read_overflows
        |now apply seed_write_refused]. }
  destruct Hout1 as (Hseeded & Henc & Hfit1).
  destruct (save_message_run sid user (text payload) w1)
    as [(Hstore & _ & Hok)|[(Hstore & Hbad)|(Hstore & _ & Hbad)]];
    rewrite storable_user in Hstore by assumption.
  2:{ rewrite Hbad. simpl. rewrite Hm1, Hp1.
      now apply user_write_unencodable. }
  2:{ rewrite Hbad. simpl. rewrite Hm1, Hp1.
      now apply user_write_refused. }
  rewrite Hok. cbv beta iota.
  set (urow := next_row sid user (text payload) w1).
  destruct (history_limit payload) as [n|] eqn:Hlim.
  2:{ simpl. rewrite Hm1, Hp1.
      now apply (refetch_with_none payload w sid seed (row_id urow)
                   (row_created_at urow)). }
  assert (Hfit : fits_int64 (n * 2) = true).
  { apply (refetch_fits payload n Hlim). now rewrite Hlim. }
  rewrite (get_history_run sid n _ Henc Hfit). cbv beta iota.
  unfold call_create_text. cbv beta iota.
  assert (Htable : messages (after_save urow w1)
                   = (messages w ++ seed)
                     ++ [user_turn payload sid (row_id urow)
                           (row_created_at urow)]).
  { simpl. now rewrite Hm1. }
  assert (Hprompts : prompts (after_save urow w1) = prompts w)
    by (simpl; now rewrite Hp1).
  rewrite Htable, Hprompts.
  set (table := (messages w ++ seed)
                ++ [user_turn payload sid (row_id urow)
                      (row_created_at urow)]) in *.
  destruct (create_text (length (prompts w))
              (prompt (rev (select_recent sid (n * 2) table))
                 (text payload))) as [ai_text|e] eqn:Hprov.
  2:{ simpl. now apply provider_fails. }
  set (w3 := mkWorld _ _ _ _).
  destruct (save_message_run sid assistant ai_text w3)
    as [(Hstore3 & _ & Hok3)|[(Hstore3 & Hbad3)|(Hstore3 & _ & Hbad3)]];
    rewrite storable_assistant in Hstore3 by assumption.
  - rewrite Hok3. simpl.
    now apply (replied payload w sid seed (row_id urow)
                 (row_created_at urow) n ai_text).
  - rewrite Hbad3. simpl.
    now apply (reply_write_unencodable payload w sid seed (row_id urow)
                 (row_created_at urow) n ai_text).
  - rewrite Hbad3. simpl.
    now apply (reply_write_refused payload w sid seed (row_id urow)
                 (row_created_at urow) n ai_text).
Qed.

Lemma fresh_ids_incl (draws t1 t2 : list str) :
  (forall x, In x t2 -> In x t1) ->
  fresh_ids draws t1 = true -> fresh_ids draws t2 = true.
Proof.
  revert t1 t2; induction draws as [|i rest IH]; intros t1 t2 Hincl;
    simpl; [reflexivity|].
  rewrite !andb_true_iff, !negb_true_iff, !existsb_str_eqb.
  intros [Hi Hrest]. split; [auto|].
  apply (IH (i :: t1)); [|assumption].
  intros x [->|Hx]; [now left|right; auto].
Qed.

Lemma fresh_ids_fewer (draws : list str) (i : str) (taken : list str) :
  fresh_ids (draws ++ [i]) taken = true -> fresh_ids draws taken = true.
Proof.
  revert taken; induction draws as [|j rest IH]; intros taken; simpl;
    [reflexivity|].
  rewrite !andb_true_iff. intros [Hj Hrest]. split; [assumption|].
  now apply IH.
Qed.

Lemma draws_fresh_head (k : nat) (w : World) :
  draws_fresh (S k) w = true ->
  ~ In (uuid_str (uuid4 (uuid_calls w))) (map row_id (messages w)).
Proof.
  unfold draws_fresh. cbn [seq map fresh_ids].
  rewrite andb_true_iff, negb_true_iff.
  intros [H _]. now apply existsb_str_eqb.
Qed.

Lemma draws_fresh_fewer (k : nat) (w : World) :
  draws_fresh (S k) w = true -> draws_fresh k w = true.
Proof.
  unfold draws_fresh. rewrite seq_S, map_app. apply fresh_ids_fewer.
Qed.

Lemma draws_fresh_after_draw (k : nat) (w : World) (t : nat) (p : list str) :
  draws_fresh (S k) w = true ->
  draws_fresh k (mkWorld (messages w) (S (uuid_calls w)) t p) = true.
Proof.
  unfold draws_fresh. cbn [seq map fresh_ids messages uuid_calls].
  rewrite andb_true_iff. intros [_ H].
  eapply fresh_ids_incl; [|exact H]. intros x Hx. now right.
Qed.

Lemma draws_fresh_after_save (k : nat) (w : World) (sid role content : str) :
  draws_fresh (S k) w = true ->
  draws_fresh k (after_save (next_row sid role content w) w) = true.
Proof.
  unfold draws_fresh.
  cbn [seq map fresh_ids messages uuid_calls after_save].
  rewrite andb_true_iff. intros [_ H].
  eapply fresh_ids_incl; [|exact H]. intros x Hx.
  rewrite map_app in Hx. apply in_app_or in Hx as [Hx|[<-|[]]];
    [now right|now left].
Qed.

(** With a fresh identifier to draw, [save_message] is not refused. *)
Lemma save_message_not_refused (k : nat) (sid role content : str)
                               (w : World) :
  draws_fresh (S k) w = true ->
  fst (save_message sid role content w) <> Raise IntegrityError
  /\ draws_fresh k (snd (save_message sid role content w)) = true.
Proof.
  intros Hfresh. pose proof (draws_fresh_head k w Hfresh) as Hnew.
  destruct (save_message_run sid role content w)
    as [(_ & _ & ->)|[(_ & ->)|(_ & Hin & _)]]; [| |contradiction].
  - split; [discriminate|now apply draws_fresh_after_save].
  - split; [discriminate|]. now apply draws_fresh_after_draw.
Qed.

(** With fresh identifiers to draw, the seeding step is not refused, and
    leaves one draw fewer to count on. *)
Lemma seed_history_not_refused (k : nat) (sid : str) (payload : ChatRequest)
                               (w : World) :
  draws_fresh (S k) w = true ->
  fst (seed_history sid payload w) <> Raise IntegrityError
  /\ draws_fresh k (snd (seed_history sid payload w)) = true
  /\ prompts (snd (seed_history sid payload w)) = prompts w.
Proof.
  intros Hfresh. unfold seed_history, bind.
  set (n := or_int (history_limit payload) 10).
  pose proof (get_history_world sid (Some n) w) as Hw.
  assert (Hkind : forall w0, fst (get_history sid (Some n) w0)
                             <> Raise IntegrityError).
  { intros w0. unfold get_history.
    destruct (encodable sid); [|simpl; discriminate].
    destruct (fits_int64 (n * 2)); simpl; discriminate. }
  pose proof (Hkind w) as Hk.
  destruct (get_history sid (Some n) w) as [[h|e] w1];
    simpl in Hw, Hk; subst w1.
  2:{ simpl. repeat split; [assumption|now apply draws_fresh_fewer]. }
  destruct h as [|m h]; cbn [length Nat.eqb].
  - destruct (save_message_not_refused k sid assistant greeting w Hfresh)
      as [Hout Hleft].
    pose proof (save_message_extends sid assistant greeting w) as [Hpr _].
    destruct (save_message sid assistant greeting w) as [[r|e] w1];
      simpl in *.
    + rewrite get_history_world. repeat split; [apply Hkind|assumption..].
    + repeat split; [|assumption..].
      intros E. injection E as ->. now apply Hout.
  - simpl. repeat split; [discriminate|now apply draws_fresh_fewer].
Qed.

(** With four fresh identifiers to draw, no write of a request is
    refused. *)
Lemma chat_not_refused (payload : ChatRequest) (w : World) :
  draws_fresh 4 w = true ->
  fst (chat payload w) <> Raise IntegrityError.
Proof.
  intros Hfresh. unfold chat, bind.
  assert (Hres : exists sid w0,
             resolve_session payload w = (Return sid, w0)
             /\ draws_fresh 3 w0 = true).
  { unfold resolve_session.
    destruct (session_id payload) as [[|c s]|]; unfold ret, call_uuid4;
      eexists; eexists; (split; [reflexivity|]);
      solve [now apply draws_fresh_after_draw|now apply draws_fresh_fewer]. }
  destruct Hres as (sid & w0 & -> & H3).
  destruct (seed_history_not_refused 2 sid payload w0 H3) as (Hout & H2 & _).
  destruct (seed_history sid payload w0) as [[h|e] w1]; simpl in Hout, H2.
  2:{ simpl. intros E. injection E as ->. now apply Hout. }
  destruct (save_message_not_refused 1 sid user (text payload) w1 H2)
    as [Hout2 H1].
  destruct (save_message sid user (text payload) w1) as [[r|e] w2];
    simpl in Hout2, H1.
  2:{ simpl. intros E. injection E as ->. now apply Hout2. }
  pose proof (get_history_world sid (history_limit payload) w2) as Hw.
  assert (Hkind : fst (get_history sid (history_limit payload) w2)
                  <> Raise IntegrityError).
  { unfold get_history. destruct (history_limit payload); [|discriminate].
    destruct (encodable sid); [|simpl; discriminate].
    destruct (fits_int64 (z * 2)); simpl; discriminate. }
  destruct (get_history sid (history_limit payload) w2) as [[convo|e] w2'];
    simpl in Hw, Hkind; subst w2'.
  2:{ simpl. intros E. injection E as ->. now apply Hkind. }
  unfold call_create_text. cbv beta iota.
  destruct (create_text _ _) as [ai_text|e]; [|simpl; discriminate].
  set (w3 := mkWorld _ _ _ _).
  assert (H0 : draws_fresh 1 w3 = true) by exact H1.
  destruct (save_message_not_refused 0 sid assistant ai_text w3 H0)
    as [Hout3 _].
  destruct (save_message sid assistant ai_text w3) as [[r3|e] w4];
    simpl in *; [discriminate|].
  intros E. injection E as ->. now apply Hout3.
Qed.

End Server.

Arguments get_history : simpl never.
Arguments save_message : simpl never.
Arguments encodable : simpl never.
Arguments uuid_str : simpl never.

(** * The claims about the history window *)

(** C1, as the code has it: for a session whose identifier can be encoded
    and a limit [N > 0] (below [2^62], so that the bound value fits SQLite's
    integers) the read returns at most [2 * N] turns; when the session holds
    at least [2 * N] turns it returns exactly [2 * N] of them; the turns
    returned are ordered oldest first by [created_at], and no turn left out
    is newer than a turn returned.  (An identifier that cannot be encoded
    makes the read raise [UnicodeEncodeError]: [get_history_unencodable].) *)
Theorem C1_window_is_twice_the_limit (sid : str) (N : Z) (w : World) :
  encodable sid = true ->
  0 < N < 2 ^ 62 ->
  exists items older,
    get_history sid (Some N) w = (Return items, w)
    /\ (length items <= Z.to_nat (2 * N))%nat
    /\ ((Z.to_nat (2 * N) <= length (where_session sid (messages w)))%nat
        -> length items = Z.to_nat (2 * N))
    /\ StronglySorted older_first items
    /\ Permutation (map select_columns (where_session sid (messages w)))
                   (older ++ items)
    /\ (forall o i, In o older -> In i items -> created_at o <= created_at i).
Proof.
  intros Henc HN.
  destruct (get_history_returns sid N w) as
    (items & older & Hrun & Hlen & Hsorted & Hperm & Hcross & _).
  { assumption. }
  { apply fits_int64_double. lia. }
  exists items, older. rewrite Hlen, sql_limit_length by lia.
  replace (N * 2) with (2 * N) by lia.
  repeat split; try assumption; lia.
Qed.

Lemma C1_window_is_twice_the_limit_witness :
  exists items older,
    get_history (lit "s") (Some 1) two_turns = (Return items, two_turns)
    /\ (length items <= Z.to_nat (2 * 1))%nat
    /\ ((Z.to_nat (2 * 1)
         <= length (where_session (lit "s") (messages two_turns)))%nat
        -> length items = Z.to_nat (2 * 1))
    /\ StronglySorted older_first items
    /\ Permutation
         (map select_columns (where_session (lit "s") (messages two_turns)))
         (older ++ items)
    /\ (forall o i, In o older -> In i items -> created_at o <= created_at i).
Proof.
  apply (C1_window_is_twice_the_limit (lit "s") 1 two_turns).
  - reflexivity.
  - lia.
Defined.

(** C1 as stated fails: with limit 1 a session of two turns is returned
    whole. *)
Lemma C1_limit_one_returns_two :
  ~ (forall (sid : str) (N : Z) (w : World) (items : list Msg),
        0 < N ->
        fst (get_history sid (Some N) w) = Return items ->
        (length items <= Z.to_nat N)%nat).
Proof.
  intros H.
  specialize (H (lit "s") 1 two_turns
                [mkMsg assistant greeting 1; mkMsg user (lit "hi") 2]).
  assert (G : (2 <= 1)%nat) by (apply H; [lia|reflexivity]).
  lia.
Qed.

(** C2, as the code has it: for a session whose identifier can be
    encoded, limit [0] returns the empty sequence without an error; a
    negative limit (from [- 2^62] up) raises no error either but returns
    every turn of the session, oldest first by [created_at].  (An
    identifier that cannot be encoded makes the read raise
    [UnicodeEncodeError] for every limit: [get_history_unencodable].) *)
Theorem C2_zero_is_empty_negative_is_everything
  (sid : str) (n : Z) (w : World) :
  encodable sid = true ->
  - 2 ^ 62 <= n <= 0 ->
  exists items,
    get_history sid (Some n) w = (Return items, w)
    /\ (n = 0 -> items = [])
    /\ (n < 0 ->
        Permutation (map select_columns (where_session sid (messages w)))
                    items
        /\ StronglySorted older_first items).
Proof.
  intros Henc Hn.
  destruct (get_history_returns sid n w) as
    (items & older & Hrun & Hlen & Hsorted & Hperm & _ & Hall).
  { assumption. }
  { apply fits_int64_double. lia. }
  exists items. split; [assumption|]. split.
  - intros ->. simpl in Hlen. now destruct items.
  - intros Hneg. rewrite Hall in Hperm by now left. now split.
Qed.

Lemma C2_zero_is_empty_negative_is_everything_witness :
  exists items,
    get_history (lit "s") (Some (-1)) one_turn = (Return items, one_turn)
    /\ (-1 = 0 -> items = [])
    /\ (-1 < 0 ->
        Permutation
          (map select_columns (where_session (lit "s") (messages one_turn)))
          items
        /\ StronglySorted older_first items).
Proof.
  apply (C2_zero_is_empty_negative_is_everything (lit "s") (-1) one_turn).
  - reflexivity.
  - lia.
Defined.

(** C2 as stated fails: limit [-1] returns the session's turn. *)
Lemma C2_negative_limit_returns_turns :
  ~ (forall (sid : str) (n : Z) (w : World),
        n <= 0 -> fst (get_history sid (Some n) w) = Return []).
Proof.
  intros H. specialize (H (lit "s") (-1) one_turn).
  assert (G : fst (get_history (lit "s") (Some (-1)) one_turn) = Return [])
    by (apply H; lia).
  vm_compute in G. discriminate.
Qed.

(** * The claims about writing and seeding *)

(** C8, as the code has it: for a session, a role and a content that can
    be encoded, when the identifier drawn is not yet a key of the table,
    [save_message] writes one row carrying that identifier and the current
    clock reading at the end of the table, leaves every other row as it
    was, and returns [None] to its caller, not the row.  (A string that
    cannot be encoded makes it raise [UnicodeEncodeError] and write
    nothing: [save_message_unencodable].) *)
Theorem C8_save_message_writes_and_returns_none
  (uuid4 : nat -> N) (time_time : nat -> Z)
  (sid role content : str) (w : World) :
  encodable sid = true -> encodable role = true ->
  encodable content = true ->
  ~ In (uuid_str (uuid4 (uuid_calls w))) (map row_id (messages w)) ->
  fst (save_message uuid4 time_time sid role content w) = Return None
  /\ messages (snd (save_message uuid4 time_time sid role content w))
     = messages w
       ++ [mkRow (uuid_str (uuid4 (uuid_calls w))) sid role content
                 (time_time (time_calls w))]
  /\ prompts (snd (save_message uuid4 time_time sid role content w))
     = prompts w.
Proof.
  intros Hs Hr Hc Hfresh.
  rewrite save_message_fresh; [now repeat split|assumption|].
  now apply storable_split.
Qed.

Lemma C8_save_message_writes_and_returns_none_witness :
  fst (save_message sample_uuid4 same_second (lit "s") user (lit "hi")
         one_turn) = Return None
  /\ messages (snd (save_message sample_uuid4 same_second (lit "s") user
                      (lit "hi") one_turn))
     = messages one_turn
       ++ [mkRow (uuid_str (sample_uuid4 (uuid_calls one_turn))) (lit "s")
                 user (lit "hi") (same_second (time_calls one_turn))]
  /\ prompts (snd (save_message sample_uuid4 same_second (lit "s") user
                     (lit "hi") one_turn))
     = prompts one_turn.
Proof.
  apply (C8_save_message_writes_and_returns_none sample_uuid4 same_second
           (lit "s") user (lit "hi") one_turn).
  - reflexivity.
  - reflexivity.
  - reflexivity.
  - vm_compute. intros [H|[]]. discriminate.
Defined.

(** C8 as stated fails: the caller is not handed the written row. *)
Lemma C8_save_message_returns_no_row :
  ~ (forall (uuid4 : nat -> N) (time_time : nat -> Z)
            (sid role content : str) (w : World),
        encodable sid = true -> encodable role = true ->
        encodable content = true ->
        ~ In (uuid_str (uuid4 (uuid_calls w))) (map row_id (messages w)) ->
        exists r, fst (save_message uuid4 time_time sid role content w)
                  = Return (Some r)).
Proof.
  intros H.
  destruct (H sample_uuid4 same_second (lit "s") user (lit "hi") empty_world)
    as [r Hr]; try reflexivity.
  - simpl. tauto.
  - vm_compute in Hr. discriminate.
Qed.

Lemma where_session_snoc_same (sid : str) (table : list Row) (r : Row) :
  row_session_id r = sid ->
  where_session sid (table ++ [r]) = where_session sid table ++ [r].
Proof.
  intros E. unfold where_session. rewrite filter_app. simpl.
  now rewrite E, str_eqb_refl.
Qed.



(** * The claims about a whole request *)

Lemma not_longer {A} (l : list A) (x : A) : l <> l ++ [x].
Proof.
  intros E. apply (f_equal (@length A)) in E.
  rewrite length_app in E. simpl in E. lia.
Qed.

Lemma same_last {A} (l : list A) (x y : A) : l ++ [x] = l ++ [y] -> x = y.
Proof. intros E. apply app_inv_head in E. now injection E. Qed.

(** What can be said whenever a request got as far as sending a prompt:
    the session it ran in, the table the prompt was built from, and what
    became of the request. *)
Lemma chat_sent_prompt
  (uuid4 : nat -> N) (time_time : nat -> Z)
  (create_text : nat -> str -> provider_result)
  (payload : ChatRequest) (w : World) (p : str) :
  prompts (snd (chat uuid4 time_time create_text payload w))
  = prompts w ++ [p] ->
  exists sid seed mid now n,
    let table := (messages w ++ seed)
                 ++ [mkRow mid sid user (text payload) now] in
    resolved uuid4 payload w sid
    /\ seeded sid (messages w) seed
    /\ history_limit payload = Some n
    /\ fits_int64 (n * 2) = true
    /\ p = prompt (rev (select_recent sid (n * 2) table)) (text payload)
    /\ (messages (snd (chat uuid4 time_time create_text payload w)) = table
        \/ exists r,
             messages (snd (chat uuid4 time_time create_text payload w))
             = table ++ [r])
    /\ forall e,
         create_text (length (prompts w)) p = Fails e ->
         fst (chat uuid4 time_time create_text payload w)
         = Raise (HTTPException 500 (lit "Model error: " ++ e))
         /\ messages (snd (chat uuid4 time_time create_text payload w))
            = table.
Proof.
  intros Hsent.
  destruct (chat_follows_path uuid4 time_time create_text payload w)
    as (sid & Hsid & Hpath).
  destruct (chat uuid4 time_time create_text payload w) as [out w'].
  cbn [fst snd] in *. rewrite Hsent in Hpath.
  inversion Hpath;
    try (exfalso; eapply not_longer; eassumption);
    match goal with
    | H : _ ++ [_] = _ ++ [_] |- _ => apply same_last in H
    end;
    subst p; subst table;
    exists sid, seed, mid, now, n; cbv zeta;
    (split; [exact Hsid|]); (split; [assumption|]);
    (split; [assumption|]); (split; [assumption|]);
    (split; [reflexivity|]);
    (split; [solve [left; reflexivity | right; eexists; reflexivity]|]);
    intros e0 He0;
    match goal with
    | H : create_text _ _ = _ |- _ =>
        rewrite H in He0;
        solve [discriminate | injection He0 as <-; split; reflexivity]
    end.
Qed.

(** C3: when the provider is called and fails, the request fails, with
    status 500, and no reply is saved: the user turn is the last row of the
    table afterwards and stays there; the one other row the request can
    have added is the greeting of the seeding step, before the user turn,
    which is there exactly when the request's session had no turn. *)
Theorem C3_provider_failure_keeps_the_user_turn
  (uuid4 : nat -> N) (time_time : nat -> Z)
  (create_text : nat -> str -> provider_result)
  (payload : ChatRequest) (w : World) (p e : str) :
  prompts (snd (chat uuid4 time_time create_text payload w))
  = prompts w ++ [p] ->
  create_text (length (prompts w)) p = Fails e ->
  fst (chat uuid4 time_time create_text payload w)
  = Raise (HTTPException 500 (lit "Model error: " ++ e))
  /\ exists sid seed mid now,
       resolved uuid4 payload w sid
       /\ seeded sid (messages w) seed
       /\ messages (snd (chat uuid4 time_time create_text payload w))
          = (messages w ++ seed) ++ [mkRow mid sid user (text payload) now].
Proof.
  intros Hsent Hfails.
  destruct (chat_sent_prompt uuid4 time_time create_text payload w p Hsent)
    as (sid & seed & mid & now & n & Hsid & Hseed & _ & _ & _ & _ & Hfail).
  destruct (Hfail e Hfails) as [Hout Htable].
  split; [exact Hout|]. exists sid, seed, mid, now.
  now repeat split.
Qed.

Lemma C3_provider_failure_keeps_the_user_turn_witness :
  fst (chat sample_uuid4 same_second provider_down first_request empty_world)
  = Raise (HTTPException 500 (lit "Model error: " ++ lit "quota exceeded"))
  /\ exists sid seed mid now,
       resolved sample_uuid4 first_request empty_world sid
       /\ seeded sid (messages empty_world) seed
       /\ messages (snd (chat sample_uuid4 same_second provider_down
                           first_request empty_world))
          = (messages empty_world ++ seed)
            ++ [mkRow mid sid user (text first_request) now].
Proof.
  apply (C3_provider_failure_keeps_the_user_turn
           sample_uuid4 same_second provider_down first_request empty_world
           first_prompt (lit "quota exceeded")).
  - vm_compute. reflexivity.
  - reflexivity.
Defined.



Lemma prompt_lines_last (convo : list Msg) (text : str) :
  last (prompt_lines convo text) [] = lit "User: " ++ text.
Proof. rewrite prompt_lines_map. apply last_last. Qed.

Lemma prompt_lines_of_member (convo : list Msg) (text : str) (m : Msg) :
  In m convo ->
  exists before between,
    prompt_lines convo text
    = before ++ [prompt_line m] ++ between ++ [lit "User: " ++ text].
Proof.
  intros Hin. apply in_split in Hin as (l1 & l2 & ->).
  exists (map prompt_line l1), (map prompt_line l2).
  rewrite prompt_lines_map, map_app. simpl.
  now rewrite <- app_assoc.
Qed.

Lemma refetch_has_last_row (sid : str) (n : Z) (table : list Row) (r : Row) :
  row_session_id r = sid ->
  n < 0 \/ Z.of_nat (length (where_session sid (table ++ [r]))) <= n * 2 ->
  In (select_columns r) (rev (select_recent sid (n * 2) (table ++ [r]))).
Proof.
  intros Hsid Hlarge. apply in_rev. rewrite rev_involutive.
  unfold select_recent. rewrite sql_limit_all.
  - apply in_map. eapply Permutation_in; [symmetry; apply order_by_perm|].
    rewrite where_session_snoc_same by assumption.
    apply in_or_app. right. now left.
  - rewrite order_by_length. lia.
Qed.

(** C5, as the code has it: whenever a request gets as far as sending a
    prompt, the last of the prompt's lines is the new user text as it came,
    whatever the re-fetch returned; and when the re-fetch includes the user
    turn just written, which it does whenever twice the limit covers the
    request's session (or the limit is negative), the prompt also has,
    earlier on, the line of that stored turn, which carries the text
    trimmed.  The two lines are the same line, so that the user's line
    appears twice, exactly when the text has no whitespace at its ends. *)
Theorem C5_user_line_is_appended_again
  (uuid4 : nat -> N) (time_time : nat -> Z)
  (create_text : nat -> str -> provider_result)
  (payload : ChatRequest) (w : World) (p : str) :
  prompts (snd (chat uuid4 time_time create_text payload w))
  = prompts w ++ [p] ->
  exists sid seed mid now n,
    let table := (messages w ++ seed)
                 ++ [mkRow mid sid user (text payload) now] in
    let convo := rev (select_recent sid (n * 2) table) in
    resolved uuid4 payload w sid
    /\ seeded sid (messages w) seed
    /\ (messages (snd (chat uuid4 time_time create_text payload w)) = table
        \/ exists r,
             messages (snd (chat uuid4 time_time create_text payload w))
             = table ++ [r])
    /\ history_limit payload = Some n
    /\ p = prompt convo (text payload)
    /\ last (prompt_lines convo (text payload)) []
       = lit "User: " ++ text payload
    /\ (In (mkMsg user (text payload) now) convo ->
        exists before between,
          prompt_lines convo (text payload)
          = before ++ [lit "User: " ++ strip (text payload)]
                   ++ between ++ [lit "User: " ++ text payload])
    /\ (n < 0 \/ Z.of_nat (length (where_session sid table)) <= n * 2 ->
        In (mkMsg user (text payload) now) convo)
    /\ (lit "User: " ++ strip (text payload) = lit "User: " ++ text payload
        <-> no_space_at_ends (text payload)).
Proof.
  intros Hsent.
  destruct (chat_sent_prompt uuid4 time_time create_text payload w p Hsent)
    as (sid & seed & mid & now & n
        & Hsid & Hseed & Hlim & _ & Hp & Htable & _).
  exists sid, seed, mid, now, n. cbv zeta.
  split; [assumption|]. split; [assumption|]. split; [exact Htable|].
  split; [assumption|]. split; [exact Hp|].
  split; [apply prompt_lines_last|]. split; [|split].
  - intros Hin.
    apply (prompt_lines_of_member _ (text payload)) in Hin. exact Hin.
  - intros Hlarge.
    apply (refetch_has_last_row sid n (messages w ++ seed)
             (mkRow mid sid user (text payload) now) eq_refl Hlarge).
  - split.
    + intros Hsame. apply app_inv_head in Hsame. rewrite <- Hsame.
      apply strip_trims.
    + intros Hends. now rewrite strip_fixed.
Qed.

Lemma C5_user_line_is_appended_again_witness :
  exists sid seed mid now n,
    let table := (messages empty_world ++ seed)
                 ++ [mkRow mid sid user (text first_request) now] in
    let convo := rev (select_recent sid (n * 2) table) in
    resolved sample_uuid4 first_request empty_world sid
    /\ seeded sid (messages empty_world) seed
    /\ (messages (snd (chat sample_uuid4 same_second provider_up
                         first_request empty_world)) = table
        \/ exists r,
             messages (snd (chat sample_uuid4 same_second provider_up
                              first_request empty_world))
             = table ++ [r])
    /\ history_limit first_request = Some n
    /\ first_prompt = prompt convo (text first_request)
    /\ last (prompt_lines convo (text first_request)) []
       = lit "User: " ++ text first_request
    /\ (In (mkMsg user (text first_request) now) convo ->
        exists before between,
          prompt_lines convo (text first_request)
          = before ++ [lit "User: " ++ strip (text first_request)]
                   ++ between ++ [lit "User: " ++ text first_request])
    /\ (n < 0 \/ Z.of_nat (length (where_session sid table)) <= n * 2 ->
        In (mkMsg user (text first_request) now) convo)
    /\ (lit "User: " ++ strip (text first_request)
        = lit "User: " ++ text first_request
        <-> no_space_at_ends (text first_request)).
Proof.
  apply (C5_user_line_is_appended_again
           sample_uuid4 same_second provider_up first_request empty_world
           first_prompt).
  vm_compute. reflexivity.
Defined.

(** C5 as stated fails: a request whose text has a blank before it, on a
    session without turns and with a limit of 10, sends a prompt built from
    a re-fetch that includes the user turn just written, and yet the
    user's line is in the prompt once only, as its last line; the line of
    the stored turn is another, with the text trimmed. *)
Lemma C5_padded_user_line_appears_once :
  ~ (forall (uuid4 : nat -> N) (time_time : nat -> Z)
            (create_text : nat -> str -> provider_result)
            (payload : ChatRequest) (w : World)
            (sid : str) (seed : list Row) (mid : str) (now n : Z),
        let table := (messages w ++ seed)
                     ++ [mkRow mid sid user (text payload) now] in
        let convo := rev (select_recent sid (n * 2) table) in
        resolved uuid4 payload w sid ->
        seeded sid (messages w) seed ->
        history_limit payload = Some n ->
        (messages (snd (chat uuid4 time_time create_text payload w)) = table
         \/ exists r,
              messages (snd (chat uuid4 time_time create_text payload w))
              = table ++ [r]) ->
        prompts (snd (chat uuid4 time_time create_text payload w))
        = prompts w ++ [prompt convo (text payload)] ->
        In (mkMsg user (text payload) now) convo ->
        exists before between,
          prompt_lines convo (text payload)
          = before ++ [lit "User: " ++ text payload]
                   ++ between ++ [lit "User: " ++ text payload]).
Proof.
  intros H.
  destruct (H sample_uuid4 same_second provider_down padded_request
              empty_world (uuid_str 0)
              [mkRow (uuid_str 1) (uuid_str 0) assistant greeting 1700000000]
              (uuid_str 2) 1700000000 10)
    as (before & between & E).
  - reflexivity.
  - right. split; [reflexivity|]. now exists (uuid_str 1), 1700000000.
  - reflexivity.
  - left. vm_compute. reflexivity.
  - vm_compute. reflexivity.
  - vm_compute. now left.
  - vm_compute in E.
    destruct before as [|b0 [|b1 [|b2 before]]]; cbn [app] in E.
    + injection E as E0 _. discriminate.
    + injection E as _ E1 _. discriminate.
    + apply (f_equal (@length _)) in E. cbn [length] in E.
      rewrite length_app in E. cbn [length] in E. lia.
    + apply (f_equal (@length _)) in E. cbn [length] in E.
      rewrite !length_app in E. cbn [length] in E. lia.
Qed.

(** * The claims about the prompt *)

Lemma join_cons (sep p : str) (rest : list str) :
  rest <> [] -> join sep (p :: rest) = p ++ sep ++ join sep rest.
Proof.
  destruct rest as [|q rest]; [easy|]. intros _. simpl.
  now rewrite <- app_assoc.
Qed.

Lemma prompt_cons (m : Msg) (convo : list Msg) (text : str) :
  prompt (m :: convo) text = prompt_line m ++ newline ++ prompt convo text.
Proof.
  unfold prompt. rewrite !prompt_lines_map. cbn [map app].
  rewrite join_cons by (now destruct (map prompt_line convo)).
  now rewrite <- !app_assoc.
Qed.

(** C4: the prompt is the lines of the transcript's turns, in transcript
    order, then the line of the new user text, joined by newlines, then a
    newline and the bare cue [Assistant:]; a turn's line is its label, [User]
    for role [user] and [Assistant] for role [assistant], then a colon, a
    space and the content with the whitespace at its two ends cut off.  The
    prompt is a function of the transcript and the text alone. *)
Theorem C4_prompt_format (convo : list Msg) (text : str) :
  prompt convo text
  = join newline (map prompt_line convo ++ [lit "User: " ++ text])
    ++ newline ++ lit "Assistant:"
  /\ prompt [] text = lit "User: " ++ text ++ newline ++ lit "Assistant:"
  /\ (forall m, prompt (m :: convo) text
                = prompt_line m ++ newline ++ prompt convo text)
  /\ (forall c t, prompt_line (mkMsg user c t)
                  = lit "User" ++ lit ": " ++ strip c)
  /\ (forall c t, prompt_line (mkMsg assistant c t)
                  = lit "Assistant" ++ lit ": " ++ strip c)
  /\ (forall c,
        (exists l r, c = l ++ strip c ++ r
                     /\ forallb isspace l = true
                     /\ forallb isspace r = true)
        /\ no_space_at_ends (strip c))
  /\ (forall convo' text',
        convo' = convo -> text' = text ->
        prompt convo' text' = prompt convo text).
Proof.
  split; [|split; [|split; [|split; [|split; [|split]]]]].
  - unfold prompt. now rewrite prompt_lines_map.
  - unfold prompt. rewrite prompt_lines_map. cbn [map app join flat_map].
    now rewrite app_nil_r, <- app_assoc.
  - intros m. apply prompt_cons.
  - reflexivity.
  - reflexivity.
  - apply strip_trims.
  - now intros convo' text' -> ->.
Qed.

(** C10: the line of a turn is labelled [User] when its role is exactly
    [user], and [Assistant] for every other role string, whatever it is. *)
Theorem C10_every_other_role_is_assistant (m : Msg) :
  (role m = user
   /\ prompt_line m = lit "User: " ++ strip (content m))
  \/ (role m <> user
      /\ prompt_line m = lit "Assistant: " ++ strip (content m)).
Proof.
  unfold prompt_line. destruct (str_eqb (role m) user) eqn:E.
  - left. apply str_eqb_eq in E. now split.
  - right. apply str_eqb_neq in E. now split.
Qed.

(** Roles the table's [TEXT] column can hold and the prompt labels
    [Assistant]: [system], the capitalised [User], and the empty string. *)
Example other_roles_are_assistant :
  prompt_line (mkMsg (lit "system") (lit " be brief ") 0)
  = lit "Assistant: be brief"
  /\ prompt_line (mkMsg (lit "User") (lit "hi") 0) = lit "Assistant: hi"
  /\ prompt_line (mkMsg [] (lit "hi") 0) = lit "Assistant: hi"
  /\ prompt_line (mkMsg (lit "user") (lit "hi") 0) = lit "User: hi".
Proof. repeat split. Qed.

(** * The claims about the log of turns *)

(** C7, where the code departs from the claim: two turns written to one
    session within the same second are read back, with a limit that covers
    both, in the reverse of the order they were written in. *)
Theorem C7_same_second_turns_are_read_back_reversed :
  let w1 := snd (save_message sample_uuid4 same_second (lit "s")
                   assistant greeting empty_world) in
  let w2 := snd (save_message sample_uuid4 same_second (lit "s")
                   user (lit "hi") w1) in
  map select_columns (messages w2)
  = [mkMsg assistant greeting 1700000000; mkMsg user (lit "hi") 1700000000]
  /\ fst (get_history (lit "s") (Some 10) w2)
     = Return [mkMsg user (lit "hi") 1700000000;
               mkMsg assistant greeting 1700000000].
Proof. split; reflexivity. Qed.

(** What holds of the log whatever the clock does: a request only ever adds
    rows at the end of the table. *)
Theorem chat_only_appends
  (uuid4 : nat -> N) (time_time : nat -> Z)
  (create_text : nat -> str -> provider_result)
  (payload : ChatRequest) (w : World) :
  exists new,
    messages (snd (chat uuid4 time_time create_text payload w))
    = messages w ++ new.
Proof.
  destruct (chat_follows_path uuid4 time_time create_text payload w)
    as (sid & _ & Hpath).
  destruct (chat uuid4 time_time create_text payload w) as [out w'].
  cbn [fst snd] in *.
  inversion Hpath;
    repeat match goal with
           | t := _ |- _ => subst t
           end;
    rewrite <- ?app_assoc;
    first [eexists; reflexivity | exists []; now rewrite app_nil_r].
Qed.

Theorem save_message_only_appends
  (uuid4 : nat -> N) (time_time : nat -> Z)
  (sid role content : str) (w : World) :
  exists new,
    messages (snd (save_message uuid4 time_time sid role content w))
    = messages w ++ new.
Proof.
  destruct (save_message_run uuid4 time_time sid role content w)
    as [(_ & _ & ->)|[(_ & ->)|(_ & _ & ->)]]; cbn [snd].
  - eexists. reflexivity.
  - exists []. now rewrite app_nil_r.
  - exists []. now rewrite app_nil_r.
Qed.

(** X5: with a clock that advances between the writes of a session, a
    read of a session whose name can be encoded, with a limit that covers
    the session, returns its turns in the order they were written in. *)
Theorem history_in_creation_order_when_clock_advances
  (sid : str) (n : Z) (w : World) :
  encodable sid = true ->
  fits_int64 (n * 2) = true ->
  n < 0 \/ Z.of_nat (length (where_session sid (messages w))) <= n * 2 ->
  StronglySorted (fun a b => row_created_at a < row_created_at b)
    (where_session sid (messages w)) ->
  get_history sid (Some n) w
  = (Return (map select_columns (where_session sid (messages w))), w).
Proof.
  intros Henc Hfit Hlarge Hclock. unfold get_history, select_recent.
  rewrite Henc. cbn [negb].
  rewrite Hfit, sql_limit_all by (rewrite order_by_length; lia).
  rewrite order_by_increasing by assumption.
  now rewrite map_rev, rev_involutive.
Qed.

(** X6: a request in full: with strings that can be encoded (the session
    named, the text, the provider's answers), fresh identifiers to draw, a
    limit SQLite can bind and a provider that answers, the request returns
    the answer in the session it resolved to, and the table gains the
    greeting exactly when that session had no turn, then the user turn,
    then the reply. *)
Theorem chat_replies
  (uuid4 : nat -> N) (time_time : nat -> Z)
  (create_text : nat -> str -> provider_result)
  (payload : ChatRequest) (w : World) (n : Z) :
  history_limit payload = Some n ->
  fits_int64 (or_int (history_limit payload) 10 * 2) = true ->
  session_id_encodable payload = true ->
  encodable (text payload) = true ->
  draws_fresh uuid4 4 w = true ->
  (forall k p, exists t, create_text k p = Reply t /\ encodable t = true) ->
  exists sid seed mid now ai_text mid' now',
    resolved uuid4 payload w sid
    /\ seeded sid (messages w) seed
    /\ create_text (length (prompts w))
         (prompt (rev (select_recent sid (n * 2)
                         ((messages w ++ seed)
                          ++ [mkRow mid sid user (text payload) now])))
            (text payload))
       = Reply ai_text
    /\ fst (chat uuid4 time_time create_text payload w)
       = Return (mkChatResponse sid ai_text)
    /\ messages (snd (chat uuid4 time_time create_text payload w))
       = ((messages w ++ seed) ++ [mkRow mid sid user (text payload) now])
         ++ [mkRow mid' sid assistant ai_text now'].
Proof.
  intros Hlim Hfit Hnamed Htext Hfresh Hup.
  pose proof (chat_not_refused uuid4 time_time create_text payload w Hfresh)
    as Hstore.
  destruct (chat_follows_path uuid4 time_time create_text payload w)
    as (sid & Hsid & Hpath).
  pose proof (resolved_encodable uuid4 payload w sid Hnamed Hsid) as Henc.
  destruct (chat uuid4 time_time create_text payload w) as [out w'].
  cbn [fst snd] in *.
  inversion Hpath; subst; try congruence;
    try match goal with
        | H : create_text ?k ?p = _ |- _ =>
            destruct (Hup k p) as (t & Ht & Henct); congruence
        end.
  exists sid, seed, mid, now, ai_text, mid', now'.
  assert (Hn : n0 = n) by congruence. subst n0.
  repeat (split; [assumption || reflexivity|]).
  reflexivity.
Qed.

(** Starting a session and reading its history back gives the greeting
    alone. *)
Example start_session_then_history :
  let '(sid, w) := start_session sample_uuid4 same_second empty_world in
  sid = Return (uuid_str 0)
  /\ fst (history (uuid_str 0) 50 w)
     = Return [mkMsg assistant greeting 1700000000].
Proof. split; reflexivity. Qed.

(** * What every operation keeps *)

Lemma keeps_bind (P : list Row -> Prop) {A B} (m : M A) (k : A -> M B) :
  keeps P m -> (forall a, keeps P (k a)) -> keeps P (bind m k).
Proof.
  unfold keeps, bind. intros Hm Hk w HP. specialize (Hm w HP).
  destruct (m w) as [[a|e] w1]; simpl in *; [now apply Hk|assumption].
Qed.

Lemma keeps_ret (P : list Row -> Prop) {A} (a : A) : keeps P (ret a).
Proof. now intros w HP. Qed.

Lemma keeps_get_history (P : list Row -> Prop) (sid : str)
                        (limit : option Z) :
  keeps P (get_history sid limit).
Proof. intros w HP. now rewrite get_history_world. Qed.

Lemma keeps_save_message (P : list Row -> Prop)
      (uuid4 : nat -> N) (time_time : nat -> Z) (sid role content : str) :
  survives_writes P ->
  role = user \/ role = assistant ->
  keeps P (save_message uuid4 time_time sid role content).
Proof.
  intros Hsurv Hrole w HP.
  destruct (save_message_run uuid4 time_time sid role content w)
    as [(_ & Hnew & ->)|[(_ & ->)|(_ & _ & ->)]]; cbn [snd];
    [|exact HP|exact HP].
  now apply Hsurv.
Qed.

Lemma keeps_seed_history (P : list Row -> Prop)
      (uuid4 : nat -> N) (time_time : nat -> Z)
      (sid : str) (payload : ChatRequest) :
  survives_writes P -> keeps P (seed_history uuid4 time_time sid payload).
Proof.
  intros Hsurv. unfold seed_history.
  apply keeps_bind; [apply keeps_get_history|]. intros h.
  destruct (length h =? 0)%nat; [|apply keeps_ret].
  apply keeps_bind; [|intros _; apply keeps_get_history].
  apply keeps_save_message; [assumption|now right].
Qed.

Lemma keeps_chat (P : list Row -> Prop)
      (uuid4 : nat -> N) (time_time : nat -> Z)
      (create_text : nat -> str -> provider_result) (payload : ChatRequest) :
  survives_writes P -> keeps P (chat uuid4 time_time create_text payload).
Proof.
  intros Hsurv. unfold chat.
  apply keeps_bind.
  { unfold resolve_session.
    destruct (session_id payload) as [[|c s]|]; now intros w HP. }
  intros sid. apply keeps_bind; [now apply keeps_seed_history|]. intros _.
  apply keeps_bind; [apply keeps_save_message; [assumption|now left]|].
  intros _. apply keeps_bind; [apply keeps_get_history|]. intros convo.
  apply keeps_bind; [now intros w HP|]. intros [ai_text|e].
  - apply keeps_bind; [|intros _; apply keeps_ret].
    apply keeps_save_message; [assumption|now right].
  - now intros w HP.
Qed.

Lemma keeps_start_session (P : list Row -> Prop)
      (uuid4 : nat -> N) (time_time : nat -> Z) :
  survives_writes P -> keeps P (start_session uuid4 time_time).
Proof.
  intros Hsurv. unfold start_session.
  apply keeps_bind; [now intros w HP|]. intros sid.
  apply keeps_bind; [|intros _; apply keeps_ret].
  apply keeps_save_message; [assumption|now right].
Qed.

Lemma ids_unique_snoc (table : list Row) (r : Row) :
  ids_unique table -> ~ In (row_id r) (map row_id table) ->
  ids_unique (table ++ [r]).
Proof.
  intros Huniq Hnew. unfold ids_unique in *.
  rewrite map_app. apply NoDup_app; [assumption|repeat constructor; easy|].
  intros a Ha [<-|[]]. contradiction.
Qed.

Lemma ids_unique_survives : survives_writes ids_unique.
Proof. intros table r Huniq Hnew _. now apply ids_unique_snoc. Qed.

Lemma roles_known_survive : survives_writes roles_known.
Proof.
  intros table r Hknown _ Hrole. unfold roles_known in *.
  apply Forall_app. split; [assumption|].
  constructor; [assumption|constructor].
Qed.

Lemma extension_survives (old : list Row) :
  survives_writes (fun table => exists new, table = old ++ new).
Proof.
  intros table r [new ->] _ _. exists (new ++ [r]). now rewrite app_assoc.
Qed.

(** X1: the primary key holds across requests: when no two rows of the
    table share an [id], no two do after [chat], after [start_session] or
    after [save_message], whatever identifiers [uuid4] yields. *)
Theorem ids_stay_unique
  (uuid4 : nat -> N) (time_time : nat -> Z)
  (create_text : nat -> str -> provider_result)
  (payload : ChatRequest) (sid role content : str) (w : World) :
  ids_unique (messages w) ->
  ids_unique (messages (snd (chat uuid4 time_time create_text payload w)))
  /\ ids_unique (messages (snd (start_session uuid4 time_time w)))
  /\ ids_unique
       (messages (snd (save_message uuid4 time_time sid role content w))).
Proof.
  intros Huniq. split; [|split].
  - now apply (keeps_chat ids_unique _ _ _ _ ids_unique_survives).
  - now apply (keeps_start_session ids_unique _ _ ids_unique_survives).
  - destruct (save_message_run uuid4 time_time sid role content w)
      as [(_ & Hnew & ->)|[(_ & ->)|(_ & _ & ->)]]; cbn [snd];
      [|exact Huniq|exact Huniq].
    now apply ids_unique_snoc.
Qed.

Lemma ids_stay_unique_witness :
  ids_unique
    (messages (snd (chat sample_uuid4 same_second provider_up first_request
                      one_turn)))
  /\ ids_unique (messages (snd (start_session sample_uuid4 same_second
                                  one_turn)))
  /\ ids_unique
       (messages (snd (save_message sample_uuid4 same_second (lit "s") user
                         (lit "hi") one_turn))).
Proof.
  apply (ids_stay_unique sample_uuid4 same_second provider_up first_request
           (lit "s") user (lit "hi") one_turn).
  unfold ids_unique. simpl. repeat constructor. intros [].
Defined.

(** X2: no operation rewrites the table: after [chat], [start_session],
    [save_message] or [get_history] the table is the table from before with
    rows added at its end, none changed, moved or removed; and a read adds
    none. *)
Theorem no_operation_rewrites_the_table
  (uuid4 : nat -> N) (time_time : nat -> Z)
  (create_text : nat -> str -> provider_result)
  (payload : ChatRequest) (sid role content : str) (limit : option Z)
  (w : World) :
  (exists new,
      messages (snd (chat uuid4 time_time create_text payload w))
      = messages w ++ new)
  /\ (exists new,
         messages (snd (start_session uuid4 time_time w))
         = messages w ++ new)
  /\ (exists new,
         messages (snd (save_message uuid4 time_time sid role content w))
         = messages w ++ new)
  /\ messages (snd (get_history sid limit w)) = messages w.
Proof.
  assert (Hsame : exists new, messages w = messages w ++ new)
    by (exists []; now rewrite app_nil_r).
  split; [|split; [|split]].
  - now apply (keeps_chat _ _ _ _ _ (extension_survives (messages w))).
  - now apply (keeps_start_session _ _ _ (extension_survives (messages w))).
  - apply save_message_only_appends.
  - now rewrite get_history_world.
Qed.

(** X3: every row the server writes has the role ["user"] or
    ["assistant"]: when all rows of the table have one of the two, so have
    all rows after [chat] and after [start_session]. *)
Theorem roles_stay_known
  (uuid4 : nat -> N) (time_time : nat -> Z)
  (create_text : nat -> str -> provider_result)
  (payload : ChatRequest) (w : World) :
  roles_known (messages w) ->
  roles_known (messages (snd (chat uuid4 time_time create_text payload w)))
  /\ roles_known (messages (snd (start_session uuid4 time_time w))).
Proof.
  intros Hknown. split.
  - now apply (keeps_chat roles_known _ _ _ _ roles_known_survive).
  - now apply (keeps_start_session roles_known _ _ roles_known_survive).
Qed.

Lemma roles_stay_known_witness :
  roles_known
    (messages (snd (chat sample_uuid4 same_second provider_up first_request
                      one_turn)))
  /\ roles_known (messages (snd (start_session sample_uuid4 same_second
                                   one_turn))).
Proof.
  apply (roles_stay_known sample_uuid4 same_second provider_up first_request
           one_turn).
  unfold roles_known. simpl. constructor; [right; reflexivity|constructor].
Defined.

Lemma history_in_creation_order_when_clock_advances_witness :
  get_history (lit "s") (Some 10) two_turns
  = (Return (map select_columns (where_session (lit "s")
                                   (messages two_turns))), two_turns).
Proof.
  apply (history_in_creation_order_when_clock_advances (lit "s") 10
           two_turns).
  - reflexivity.
  - reflexivity.
  - right. simpl. lia.
  - simpl. repeat constructor; simpl; lia.
Defined.

Lemma chat_replies_witness :
  exists sid seed mid now ai_text mid' now',
    resolved sample_uuid4 first_request empty_world sid
    /\ seeded sid (messages empty_world) seed
    /\ provider_up (length (prompts empty_world))
         (prompt (rev (select_recent sid (10 * 2)
                         ((messages empty_world ++ seed)
                          ++ [mkRow mid sid user (text first_request) now])))
            (text first_request))
       = Reply ai_text
    /\ fst (chat sample_uuid4 same_second provider_up first_request
              empty_world)
       = Return (mkChatResponse sid ai_text)
    /\ messages (snd (chat sample_uuid4 same_second provider_up
                        first_request empty_world))
       = ((messages empty_world ++ seed)
          ++ [mkRow mid sid user (text first_request) now])
         ++ [mkRow mid' sid assistant ai_text now'].
Proof.
  apply (chat_replies sample_uuid4 same_second provider_up first_request
           empty_world 10).
  - reflexivity.
  - reflexivity.
  - reflexivity.
  - reflexivity.
  - vm_compute. reflexivity.
  - intros k p. exists (lit "Hi!"). split; reflexivity.
Defined.

(** * Sessions are kept apart *)

Lemma get_history_of_table (sid : str) (limit : option Z) (w1 w2 : World) :
  messages w1 = messages w2 ->
  fst (get_history sid limit w1) = fst (get_history sid limit w2).
Proof.
  intros E. unfold get_history. destruct limit as [n|]; [|reflexivity].
  destruct (encodable sid); [|reflexivity]. cbn [negb].
  destruct (fits_int64 (n * 2)); [|reflexivity]. simpl. now rewrite E.
Qed.

Lemma where_session_app_other (sid sid' : str) (table new : list Row) :
  Forall (fun r => row_session_id r = sid) new -> sid' <> sid ->
  where_session sid' (table ++ new) = where_session sid' table.
Proof.
  intros Hnew Hneq. unfold where_session. rewrite filter_app.
  replace (filter _ new) with (@nil Row); [apply app_nil_r|].
  induction Hnew as [|r new Hr _ IH]; [reflexivity|]. simpl.
  rewrite Hr. apply not_eq_sym in Hneq. apply str_eqb_neq in Hneq.
  now rewrite Hneq.
Qed.

Lemma get_history_after_other_writes
      (sid sid' : str) (limit : option Z) (w w' : World) (new : list Row) :
  messages w' = messages w ++ new ->
  Forall (fun r => row_session_id r = sid) new -> sid' <> sid ->
  fst (get_history sid' limit w') = fst (get_history sid' limit w).
Proof.
  intros E Hnew Hneq. unfold get_history.
  destruct limit as [n|]; [|reflexivity].
  destruct (encodable sid'); [|reflexivity]. cbn [negb].
  destruct (fits_int64 (n * 2)); [|reflexivity]. simpl.
  unfold select_recent. rewrite E.
  now rewrite (where_session_app_other sid sid').
Qed.

Lemma select_recent_rows (sid : str) (k : Z) (table : list Row) (m : Msg) :
  In m (rev (select_recent sid k table)) ->
  exists r, In r table /\ row_session_id r = sid /\ select_columns r = m.
Proof.
  intros Hm. apply in_rev in Hm. unfold select_recent in Hm.
  apply in_map_iff in Hm as (r & Hsel & Hr). exists r.
  destruct (sql_limit_split k
              (order_by_created_at_desc (where_session sid table)))
    as [rest Hsplit].
  assert (Hin : In r (where_session sid table)).
  { eapply Permutation_in; [apply order_by_perm|].
    rewrite Hsplit. apply in_or_app. now left. }
  unfold where_session in Hin. apply filter_In in Hin as [Hin Hsid].
  apply str_eqb_eq in Hsid. now repeat split.
Qed.

(** X7: a read returns turns of its own session only, and changes
    nothing: every item [get_history] returns is the role, content and time
    of a row of the table whose [session_id] is the one asked for. *)
Theorem get_history_reads_only_its_session
  (sid : str) (limit : option Z) (w : World) (items : list Msg) :
  fst (get_history sid limit w) = Return items ->
  snd (get_history sid limit w) = w
  /\ forall m, In m items ->
       exists r, In r (messages w) /\ row_session_id r = sid
                 /\ select_columns r = m.
Proof.
  intros Hrun. split; [apply get_history_world|].
  unfold get_history in Hrun. destruct limit as [n|]; [|discriminate].
  destruct (encodable sid); [|discriminate]. cbn [negb] in Hrun.
  destruct (fits_int64 (n * 2)); [|discriminate].
  simpl in Hrun. injection Hrun as <-.
  intros m Hm. apply in_rev in Hm. unfold select_recent in Hm.
  apply in_map_iff in Hm as (r & Hsel & Hr). exists r.
  destruct (sql_limit_split (n * 2)
              (order_by_created_at_desc (where_session sid (messages w))))
    as [rest Hsplit].
  assert (Hin : In r (where_session sid (messages w))).
  { eapply Permutation_in; [apply order_by_perm|].
    rewrite Hsplit. apply in_or_app. now left. }
  unfold where_session in Hin. apply filter_In in Hin as [Hin Hsid].
  apply str_eqb_eq in Hsid. now repeat split.
Qed.

Lemma get_history_reads_only_its_session_witness :
  snd (get_history (lit "s") (Some 1) two_turns) = two_turns
  /\ forall m,
       In m [mkMsg assistant greeting 1; mkMsg user (lit "hi") 2] ->
       exists r, In r (messages two_turns) /\ row_session_id r = lit "s"
                 /\ select_columns r = m.
Proof.
  apply (get_history_reads_only_its_session (lit "s") (Some 1) two_turns).
  reflexivity.
Defined.

(** X8: a turn saved to one session does not show in the history of
    another: reading session [sid'] after [save_message] wrote to a
    different session [sid] gives what it gave before. *)
Theorem writes_to_another_session_do_not_show
  (uuid4 : nat -> N) (time_time : nat -> Z)
  (sid sid' role content : str) (limit : option Z) (w : World) :
  sid' <> sid ->
  fst (get_history sid' limit
         (snd (save_message uuid4 time_time sid role content w)))
  = fst (get_history sid' limit w).
Proof.
  intros Hneq.
  destruct (save_message_run uuid4 time_time sid role content w)
    as [(_ & _ & ->)|[(_ & ->)|(_ & _ & ->)]]; cbn [snd].
  - apply (get_history_after_other_writes sid sid' limit w _
             [next_row uuid4 time_time sid role content w]);
      [reflexivity|now repeat constructor|assumption].
  - now apply get_history_of_table.
  - now apply get_history_of_table.
Qed.

Lemma writes_to_another_session_do_not_show_witness :
  fst (get_history (lit "s") (Some 10)
         (snd (save_message sample_uuid4 same_second (lit "t") user
                 (lit "hi") one_turn)))
  = fst (get_history (lit "s") (Some 10) one_turn).
Proof.
  apply (writes_to_another_session_do_not_show sample_uuid4 same_second
           (lit "t") (lit "s") user (lit "hi") (Some 10) one_turn).
  discriminate.
Defined.

Lemma seeded_rows (sid : str) (table seed : list Row) :
  seeded sid table seed ->
  Forall (fun r => row_session_id r = sid) seed /\ (length seed <= 1)%nat.
Proof.
  intros [(_ & ->)|(_ & mid & now & ->)]; simpl; split;
    repeat constructor.
Qed.

(** X9: a request writes to its own session only, three rows at most:
    the rows [chat] adds all carry the session the request resolved to, and
    the history of every other session reads as before. *)
Theorem chat_touches_only_its_session
  (uuid4 : nat -> N) (time_time : nat -> Z)
  (create_text : nat -> str -> provider_result)
  (payload : ChatRequest) (w : World) :
  exists sid new,
    resolved uuid4 payload w sid
    /\ messages (snd (chat uuid4 time_time create_text payload w))
       = messages w ++ new
    /\ Forall (fun r => row_session_id r = sid) new
    /\ (length new <= 3)%nat
    /\ forall sid' limit,
         sid' <> sid ->
         fst (get_history sid' limit
                (snd (chat uuid4 time_time create_text payload w)))
         = fst (get_history sid' limit w).
Proof.
  destruct (chat_follows_path uuid4 time_time create_text payload w)
    as (sid & Hsid & Hpath).
  exists sid.
  assert (Hnew : exists new,
             messages (snd (chat uuid4 time_time create_text payload w))
             = messages w ++ new
             /\ Forall (fun r => row_session_id r = sid) new
             /\ (length new <= 3)%nat).
  { destruct (chat uuid4 time_time create_text payload w) as [out w'].
    cbn [fst snd] in *.
    inversion Hpath;
      repeat match goal with
             | t := _ |- _ => subst t
             end;
      try match goal with
          | H : seeded _ _ ?seed |- _ =>
              destruct (seeded_rows _ _ _ H) as [Hrows Hlen]
          end;
      first
        [ exists []; rewrite app_nil_r;
          repeat split; [constructor|simpl; lia]
        | exists seed; repeat split; [assumption|lia]
        | exists (seed ++ [user_turn payload sid mid now]);
          rewrite app_assoc; repeat split;
          [ apply Forall_app; split; [assumption|now repeat constructor]
          | rewrite length_app; simpl; lia ]
        | exists (seed ++ [user_turn payload sid mid now;
                           mkRow mid' sid assistant ai_text now']);
          repeat split;
          [ rewrite <- !app_assoc; reflexivity
          | apply Forall_app; split; [assumption|now repeat constructor]
          | rewrite length_app; simpl; lia ] ]. }
  destruct Hnew as (new & Hext & Hrows & Hlen).
  exists new. repeat split; try assumption.
  intros sid' limit Hneq.
  now apply (get_history_after_other_writes sid sid' limit w _ new).
Qed.

(** * Reading after writing *)

Lemma order_by_snoc (scan : list Row) (r : Row) :
  order_by_created_at_desc (scan ++ [r])
  = insert_desc r (order_by_created_at_desc scan).
Proof. unfold order_by_created_at_desc. now rewrite fold_left_app. Qed.

Lemma insert_desc_newest (r : Row) (sorted : list Row) :
  Forall (fun x => row_created_at x < row_created_at r) sorted ->
  insert_desc r sorted = r :: sorted.
Proof.
  intros H. destruct sorted as [|x sorted]; [reflexivity|]. simpl.
  apply Forall_inv in H.
  destruct (Z.leb_spec (row_created_at r) (row_created_at x));
    [lia|reflexivity].
Qed.

(** X10: a turn the store accepts (its strings can be encoded, its
    identifier is new), written at a later second than every turn of its
    session, is the last item of the next read, for every limit from 1 up:
    after [save_message] the history ends with the turn just saved. *)
Theorem newest_turn_is_read_last
  (uuid4 : nat -> N) (time_time : nat -> Z)
  (sid role content : str) (n : Z) (w : World) :
  encodable sid = true -> encodable role = true ->
  encodable content = true ->
  ~ In (uuid_str (uuid4 (uuid_calls w))) (map row_id (messages w)) ->
  Forall (fun r => row_created_at r < time_time (time_calls w))
         (where_session sid (messages w)) ->
  0 < n < 2 ^ 62 ->
  exists earlier,
    fst (get_history sid (Some n)
           (snd (save_message uuid4 time_time sid role content w)))
    = Return (earlier ++ [mkMsg role content (time_time (time_calls w))]).
Proof.
  intros Hsid Hrole Hcontent Hnew Hlater Hn.
  rewrite save_message_fresh
    by (assumption || (apply storable_split; now repeat split)).
  unfold get_history. rewrite Hsid. cbn [negb].
  rewrite fits_int64_double by lia.
  cbn [fst snd after_save messages]. unfold select_recent.
  rewrite where_session_snoc_same by reflexivity.
  rewrite order_by_snoc, insert_desc_newest.
  - unfold sql_limit. destruct (Z.ltb_spec (n * 2) 0); [lia|].
    replace (Z.to_nat (n * 2)) with (S (Z.to_nat (n * 2 - 1))) by lia.
    cbn [firstn map rev]. eexists. reflexivity.
  - eapply Permutation_Forall; [symmetry; apply order_by_perm|].
    exact Hlater.
Qed.

Lemma newest_turn_is_read_last_witness :
  exists earlier,
    fst (get_history (lit "s") (Some 1)
           (snd (save_message sample_uuid4 ticking_clock (lit "s") user
                   (lit "hi") two_turns)))
    = Return (earlier
              ++ [mkMsg user (lit "hi")
                    (ticking_clock (time_calls two_turns))]).
Proof.
  apply (newest_turn_is_read_last sample_uuid4 ticking_clock (lit "s") user
           (lit "hi") 1 two_turns).
  - reflexivity.
  - reflexivity.
  - reflexivity.
  - vm_compute. intros [H|[H|[]]]; discriminate.
  - simpl. repeat constructor; unfold ticking_clock; simpl; lia.
  - lia.
Defined.

(** X11: raising the limit only adds older turns in front: for a session
    whose name can be encoded and limits [0 <= n <= m], the read with limit
    [m] is the read with limit [n] with further turns before it. *)
Theorem larger_limit_only_adds_older_turns
  (sid : str) (n m : Z) (w : World) :
  encodable sid = true ->
  0 <= n <= m -> m < 2 ^ 62 ->
  exists items older,
    fst (get_history sid (Some n) w) = Return items
    /\ fst (get_history sid (Some m) w) = Return (older ++ items).
Proof.
  intros Henc Hnm Hm. unfold get_history. rewrite Henc. cbn [negb].
  rewrite !fits_int64_double by lia. cbn [fst].
  unfold select_recent, sql_limit.
  destruct (Z.ltb_spec (n * 2) 0); [lia|].
  destruct (Z.ltb_spec (m * 2) 0); [lia|].
  set (sorted := order_by_created_at_desc (where_session sid (messages w))).
  exists (rev (map select_columns (firstn (Z.to_nat (n * 2)) sorted))),
         (rev (map select_columns
                 (skipn (Z.to_nat (n * 2))
                    (firstn (Z.to_nat (m * 2)) sorted)))).
  split; [reflexivity|]. f_equal.
  rewrite <- rev_app_distr, <- map_app. do 2 f_equal.
  rewrite <- (firstn_skipn (Z.to_nat (n * 2))
                (firstn (Z.to_nat (m * 2)) sorted)) at 1.
  f_equal. rewrite firstn_firstn. f_equal. lia.
Qed.

Lemma larger_limit_only_adds_older_turns_witness :
  exists items older,
    fst (get_history (lit "s") (Some 1) four_turns) = Return items
    /\ fst (get_history (lit "s") (Some 2) four_turns)
       = Return (older ++ items).
Proof.
  apply (larger_limit_only_adds_older_turns (lit "s") 1 2 four_turns);
    [reflexivity|lia|lia].
Defined.

(** * Limits at the edges *)

Lemma fits_int64_oversized (n : Z) :
  n < - 2 ^ 62 \/ 2 ^ 62 <= n -> fits_int64 (n * 2) = false.
Proof.
  intros H. unfold fits_int64. apply andb_false_iff.
  destruct H; [left; apply Z.leb_gt|right; apply Z.ltb_ge]; lia.
Qed.

(** X12: a limit whose double does not fit SQLite's integers fails the
    request at its first read, with [OverflowError] and before anything is
    written or sent, when the session the request names can be encoded (the
    session is bound first, and fails first when it cannot);
    [get_history] fails the same way on its own. *)
Theorem oversized_limit_fails_before_any_write
  (uuid4 : nat -> N) (time_time : nat -> Z)
  (create_text : nat -> str -> provider_result)
  (payload : ChatRequest) (n : Z) (w : World) :
  history_limit payload = Some n ->
  n < - 2 ^ 62 \/ 2 ^ 62 <= n ->
  session_id_encodable payload = true ->
  fst (chat uuid4 time_time create_text payload w) = Raise OverflowError
  /\ messages (snd (chat uuid4 time_time create_text payload w))
     = messages w
  /\ prompts (snd (chat uuid4 time_time create_text payload w)) = prompts w
  /\ forall sid w0,
       encodable sid = true ->
       get_history sid (Some n) w0 = (Raise OverflowError, w0).
Proof.
  intros Hlim Hbig Hnamed.
  pose proof (fits_int64_oversized n Hbig) as Hfit.
  assert (Hor : or_int (Some n) 10 = n) by (destruct n; simpl; lia || reflexivity).
  assert (Hread : forall sid w0,
             encodable sid = true ->
             get_history sid (Some n) w0 = (Raise OverflowError, w0)).
  { intros sid w0 Henc. unfold get_history. now rewrite Henc, Hfit. }
  destruct (resolve_session_run uuid4 payload w)
    as (sid & w0 & Hres & Hsid & Hm0 & Hp0).
  pose proof (resolved_encodable uuid4 payload w sid Hnamed Hsid) as Henc.
  unfold chat, bind. rewrite Hres.
  unfold seed_history, bind. rewrite Hlim, Hor, (Hread sid w0 Henc).
  cbn [fst snd].
  repeat split; assumption.
Qed.

Lemma oversized_limit_fails_before_any_write_witness :
  fst (chat sample_uuid4 same_second provider_up
         (mkChatRequest None (lit "hi") (Some (2 ^ 62))) one_turn)
  = Raise OverflowError
  /\ messages (snd (chat sample_uuid4 same_second provider_up
                      (mkChatRequest None (lit "hi") (Some (2 ^ 62)))
                      one_turn))
     = messages one_turn
  /\ prompts (snd (chat sample_uuid4 same_second provider_up
                     (mkChatRequest None (lit "hi") (Some (2 ^ 62)))
                     one_turn))
     = prompts one_turn
  /\ forall sid w0,
       encodable sid = true ->
       get_history sid (Some (2 ^ 62)) w0 = (Raise OverflowError, w0).
Proof.
  apply (oversized_limit_fails_before_any_write sample_uuid4 same_second
           provider_up (mkChatRequest None (lit "hi") (Some (2 ^ 62)))
           (2 ^ 62) one_turn).
  - reflexivity.
  - right. lia.
  - reflexivity.
Defined.

Lemma get_history_single (sid : str) (n : Z) (w : World) (r : Row) :
  encodable sid = true ->
  where_session sid (messages w) = [r] ->
  n <> 0 -> - 2 ^ 62 <= n < 2 ^ 62 ->
  fst (get_history sid (Some n) w) = Return [select_columns r].
Proof.
  intros Henc Hone Hn Hfit. unfold get_history. rewrite Henc. cbn [negb].
  rewrite fits_int64_double by assumption. cbn [fst].
  unfold select_recent. rewrite Hone. cbn [order_by_created_at_desc
    fold_left insert_desc]. unfold sql_limit.
  destruct (Z.ltb_spec (n * 2) 0); [reflexivity|].
  replace (Z.to_nat (n * 2)) with (S (Z.to_nat (n * 2 - 1))) by lia.
  cbn [firstn]. now rewrite firstn_nil.
Qed.

(** X13: a session just started reads as the greeting alone: when the
    identifier drawn for the session is not in use as a session and the one
    drawn for the message is not a key, [start_session] returns the session
    identifier, and [history] of it, for every limit other than 0 that can
    be bound, is the greeting in the assistant role. *)
Theorem start_session_opens_with_the_greeting
  (uuid4 : nat -> N) (time_time : nat -> Z) (n : Z) (w : World) :
  where_session (uuid_str (uuid4 (uuid_calls w))) (messages w) = [] ->
  ~ In (uuid_str (uuid4 (S (uuid_calls w)))) (map row_id (messages w)) ->
  n <> 0 -> - 2 ^ 62 <= n < 2 ^ 62 ->
  fst (start_session uuid4 time_time w)
  = Return (uuid_str (uuid4 (uuid_calls w)))
  /\ fst (history (uuid_str (uuid4 (uuid_calls w))) n
            (snd (start_session uuid4 time_time w)))
     = Return [mkMsg assistant greeting (time_time (time_calls w))].
Proof.
  intros Hunused Hnew Hn Hfit.
  set (sid := uuid_str (uuid4 (uuid_calls w))) in *.
  assert (Henc : encodable sid = true) by apply uuid_str_encodable.
  assert (Hstore : storable sid assistant greeting = true)
    by now rewrite storable_assistant.
  set (w1 := mkWorld (messages w) (S (uuid_calls w)) (time_calls w)
                     (prompts w)).
  assert (Hrun : start_session uuid4 time_time w
                 = (Return sid,
                    after_save (next_row uuid4 time_time sid assistant
                                  greeting w1) w1)).
  { unfold start_session, bind, call_uuid4. fold sid. fold w1.
    now rewrite (save_message_fresh uuid4 time_time sid assistant greeting
                   w1 Hnew Hstore). }
  rewrite Hrun. split; [reflexivity|].
  unfold history. cbn [snd].
  apply (get_history_single sid n _
           (next_row uuid4 time_time sid assistant greeting w1));
    try assumption.
  cbn [after_save messages]. rewrite where_session_snoc_same by reflexivity.
  subst w1. cbn [messages]. now rewrite Hunused.
Qed.

Lemma start_session_opens_with_the_greeting_witness :
  fst (start_session sample_uuid4 same_second one_turn)
  = Return (uuid_str (sample_uuid4 (uuid_calls one_turn)))
  /\ fst (history (uuid_str (sample_uuid4 (uuid_calls one_turn))) 50
            (snd (start_session sample_uuid4 same_second one_turn)))
     = Return [mkMsg assistant greeting
                 (same_second (time_calls one_turn))].
Proof.
  apply (start_session_opens_with_the_greeting sample_uuid4 same_second 50
           one_turn).
  - reflexivity.
  - vm_compute. intros [H|[]]. discriminate.
  - lia.
  - lia.
Defined.

(** * More on whole requests *)

(** X14: a request on a session that already has a turn never adds the
    greeting again: what it adds to the table is nothing, or the user turn,
    or the user turn and then the reply it returns. *)
Theorem chat_on_a_live_session_adds_no_greeting
  (uuid4 : nat -> N) (time_time : nat -> Z)
  (create_text : nat -> str -> provider_result)
  (payload : ChatRequest) (sid : str) (w : World) :
  session_id payload = Some sid -> sid <> [] ->
  where_session sid (messages w) <> [] ->
  exists new,
    messages (snd (chat uuid4 time_time create_text payload w))
    = messages w ++ new
    /\ (new = []
        \/ (exists mid now, new = [mkRow mid sid user (text payload) now])
        \/ (exists mid now mid' now' ai_text,
               new = [mkRow mid sid user (text payload) now;
                      mkRow mid' sid assistant ai_text now']
               /\ fst (chat uuid4 time_time create_text payload w)
                  = Return (mkChatResponse sid ai_text))).
Proof.
  intros Hnamed Hsid Hlive.
  destruct (chat_follows_path uuid4 time_time create_text payload w)
    as (sid0 & Hres & Hpath).
  unfold resolved in Hres. rewrite Hnamed in Hres.
  destruct sid as [|c s]; [contradiction|]. subst sid0.
  assert (Hseed : forall seed, seeded (c :: s) (messages w) seed -> seed = []).
  { intros seed [[_ ->]|[Hnone _]]; [reflexivity|contradiction]. }
  destruct (chat uuid4 time_time create_text payload w) as [out w'].
  cbn [fst snd] in *.
  inversion Hpath;
    repeat match goal with
           | t := _ |- _ => subst t
           end;
    try match goal with
        | H : seeded _ _ ?seed |- _ => rewrite (Hseed _ H); clear H
        end;
    rewrite ?app_nil_r;
    first
      [ exists []; rewrite app_nil_r; split; [reflexivity|now left]
      | eexists; split; [reflexivity|]; right; left; unfold user_turn;
        eexists; eexists; reflexivity
      | eexists; split; [rewrite <- app_assoc; reflexivity|];
        right; right; unfold user_turn; cbn [app];
        do 5 eexists; split; reflexivity ].
Qed.

Lemma chat_on_a_live_session_adds_no_greeting_witness :
  exists new,
    messages (snd (chat sample_uuid4 same_second provider_up second_request
                     one_turn))
    = messages one_turn ++ new
    /\ (new = []
        \/ (exists mid now,
               new = [mkRow mid (lit "s") user (text second_request) now])
        \/ (exists mid now mid' now' ai_text,
               new = [mkRow mid (lit "s") user (text second_request) now;
                      mkRow mid' (lit "s") assistant ai_text now']
               /\ fst (chat sample_uuid4 same_second provider_up
                         second_request one_turn)
                  = Return (mkChatResponse (lit "s") ai_text))).
Proof.
  apply (chat_on_a_live_session_adds_no_greeting sample_uuid4 same_second
           provider_up second_request (lit "s") one_turn).
  - reflexivity.
  - discriminate.
  - discriminate.
Defined.

(** X15: a request that returns answers in the session it resolved to,
    the one it named or else a new identifier (also when it named the empty
    string), with the text the provider gave for the one prompt sent, and
    that text is the content of the last row of the table, in the assistant
    role. *)
Theorem chat_returns_what_it_saved
  (uuid4 : nat -> N) (time_time : nat -> Z)
  (create_text : nat -> str -> provider_result)
  (payload : ChatRequest) (w : World) (resp : ChatResponse) :
  fst (chat uuid4 time_time create_text payload w) = Return resp ->
  match session_id payload with
  | Some (c :: s) => resp_session_id resp = c :: s
  | _ => resp_session_id resp = uuid_str (uuid4 (uuid_calls w))
  end
  /\ exists p before mid now,
       prompts (snd (chat uuid4 time_time create_text payload w))
       = prompts w ++ [p]
       /\ create_text (length (prompts w)) p = Reply (reply resp)
       /\ messages (snd (chat uuid4 time_time create_text payload w))
          = before
            ++ [mkRow mid (resp_session_id resp) assistant (reply resp) now].
Proof.
  intros Hret.
  destruct (chat_follows_path uuid4 time_time create_text payload w)
    as (sid & Hres & Hpath).
  destruct (chat uuid4 time_time create_text payload w) as [out w'].
  cbn [fst snd] in *. subst out.
  inversion Hpath; subst. split; [exact Hres|].
  cbn [reply resp_session_id]. eauto 10.
Qed.

Lemma chat_returns_what_it_saved_witness :
  match session_id second_request with
  | Some (c :: s) => resp_session_id (mkChatResponse (lit "s") (lit "Hi!"))
                     = c :: s
  | _ => resp_session_id (mkChatResponse (lit "s") (lit "Hi!"))
         = uuid_str (sample_uuid4 (uuid_calls one_turn))
  end
  /\ exists p before mid now,
       prompts (snd (chat sample_uuid4 same_second provider_up
                       second_request one_turn))
       = prompts one_turn ++ [p]
       /\ provider_up (length (prompts one_turn)) p
          = Reply (reply (mkChatResponse (lit "s") (lit "Hi!")))
       /\ messages (snd (chat sample_uuid4 same_second provider_up
                           second_request one_turn))
          = before
            ++ [mkRow mid
                  (resp_session_id (mkChatResponse (lit "s") (lit "Hi!")))
                  assistant (reply (mkChatResponse (lit "s") (lit "Hi!")))
                  now].
Proof.
  apply (chat_returns_what_it_saved sample_uuid4 same_second provider_up
           second_request one_turn (mkChatResponse (lit "s") (lit "Hi!"))).
  reflexivity.
Defined.

(** X16: with [history_limit] 0 the prompt carries no context at all: it
    is the new user text and the cue, whatever the session holds (the
    seeding read still runs with 10, so the greeting may be written). *)
Theorem zero_limit_sends_no_context
  (uuid4 : nat -> N) (time_time : nat -> Z)
  (create_text : nat -> str -> provider_result)
  (payload : ChatRequest) (w : World) (p : str) :
  history_limit payload = Some 0 ->
  prompts (snd (chat uuid4 time_time create_text payload w))
  = prompts w ++ [p] ->
  p = lit "User: " ++ text payload ++ newline ++ lit "Assistant:"
  /\ or_int (history_limit payload) 10 = 10.
Proof.
  intros Hzero Hsent. split; [|now rewrite Hzero].
  destruct (chat_follows_path uuid4 time_time create_text payload w)
    as (sid & _ & Hpath).
  destruct (chat uuid4 time_time create_text payload w) as [out w'].
  simpl in Hsent, Hpath. rewrite Hsent in Hpath.
  assert (Hp : forall table,
             chat_prompt payload sid 0 table
             = lit "User: " ++ text payload ++ newline ++ lit "Assistant:").
  { intros table. unfold chat_prompt, select_recent, sql_limit.
    cbn [Z.mul Z.ltb Z.compare Z.to_nat firstn map rev].
    unfold prompt. rewrite prompt_lines_map.
    cbn [map app join flat_map]. now rewrite app_nil_r, <- app_assoc. }
  inversion Hpath; subst;
    try (exfalso; eapply not_longer; eassumption);
    match goal with
    | H : _ ++ [_] = _ ++ [_] |- _ => apply same_last in H
    end;
    match goal with
    | H : history_limit payload = Some ?n |- _ =>
        rewrite Hzero in H; injection H as <-
    end;
    subst p; apply Hp.
Qed.

Lemma zero_limit_sends_no_context_witness :
  lit "User: hi" ++ newline ++ lit "Assistant:"
  = lit "User: " ++ text (mkChatRequest None (lit "hi") (Some 0))
    ++ newline ++ lit "Assistant:"
  /\ or_int (history_limit (mkChatRequest None (lit "hi") (Some 0))) 10 = 10.
Proof.
  apply (zero_limit_sends_no_context sample_uuid4 same_second provider_up
           (mkChatRequest None (lit "hi") (Some 0)) one_turn
           (lit "User: hi" ++ newline ++ lit "Assistant:")).
  - reflexivity.
  - vm_compute. reflexivity.
Defined.

(** X17: the limit bounds the prompt: for a limit [n > 0] the prompt a
    request sends is built from the turns the re-fetch returns for the
    request's session, read from the table as it is once the user turn is
    written; they are at most [2 * n], and each is a stored turn of that
    session. *)
Theorem prompt_is_bounded_by_the_limit
  (uuid4 : nat -> N) (time_time : nat -> Z)
  (create_text : nat -> str -> provider_result)
  (payload : ChatRequest) (n : Z) (w : World) (p : str) :
  history_limit payload = Some n -> 0 < n ->
  prompts (snd (chat uuid4 time_time create_text payload w))
  = prompts w ++ [p] ->
  exists sid seed mid now,
    let table := (messages w ++ seed)
                 ++ [mkRow mid sid user (text payload) now] in
    let convo := rev (select_recent sid (n * 2) table) in
    resolved uuid4 payload w sid
    /\ seeded sid (messages w) seed
    /\ (messages (snd (chat uuid4 time_time create_text payload w)) = table
        \/ exists r,
             messages (snd (chat uuid4 time_time create_text payload w))
             = table ++ [r])
    /\ p = prompt convo (text payload)
    /\ (length convo <= Z.to_nat (2 * n))%nat
    /\ forall m, In m convo ->
         exists r, In r table /\ row_session_id r = sid
                   /\ select_columns r = m.
Proof.
  intros Hlim Hn Hsent.
  destruct (chat_sent_prompt uuid4 time_time create_text payload w p Hsent)
    as (sid & seed & mid & now & n0
        & Hsid & Hseed & Hlim0 & _ & Hp & Htable & _).
  assert (Hsame : n0 = n) by congruence. subst n0.
  exists sid, seed, mid, now. cbv zeta.
  split; [assumption|]. split; [assumption|]. split; [exact Htable|].
  split; [exact Hp|]. split.
  - unfold select_recent.
    rewrite length_rev, length_map, sql_limit_length by lia.
    replace (n * 2) with (2 * n) by lia. lia.
  - intros m. apply select_recent_rows.
Qed.

Lemma prompt_is_bounded_by_the_limit_witness :
  exists sid seed mid now,
    let table := (messages empty_world ++ seed)
                 ++ [mkRow mid sid user (text first_request) now] in
    let convo := rev (select_recent sid (10 * 2) table) in
    resolved sample_uuid4 first_request empty_world sid
    /\ seeded sid (messages empty_world) seed
    /\ (messages (snd (chat sample_uuid4 same_second provider_up
                         first_request empty_world)) = table
        \/ exists r,
             messages (snd (chat sample_uuid4 same_second provider_up
                              first_request empty_world))
             = table ++ [r])
    /\ first_prompt = prompt convo (text first_request)
    /\ (length convo <= Z.to_nat (2 * 10))%nat
    /\ forall m, In m convo ->
         exists r, In r table /\ row_session_id r = sid
                   /\ select_columns r = m.
Proof.
  apply (prompt_is_bounded_by_the_limit sample_uuid4 same_second provider_up
           first_request 10 empty_world first_prompt).
  - reflexivity.
  - lia.
  - vm_compute. reflexivity.
Defined.

(** X18: a request calls the provider once at most and never retries; it
    ends in an [HTTPException] only when that one call failed, and then
    with status 500 and the detail ["Model error: "] followed by the
    provider's message. *)
Theorem provider_is_called_at_most_once
  (uuid4 : nat -> N) (time_time : nat -> Z)
  (create_text : nat -> str -> provider_result)
  (payload : ChatRequest) (w : World) :
  (prompts (snd (chat uuid4 time_time create_text payload w)) = prompts w
   \/ exists p,
        prompts (snd (chat uuid4 time_time create_text payload w))
        = prompts w ++ [p])
  /\ forall status detail,
       fst (chat uuid4 time_time create_text payload w)
       = Raise (HTTPException status detail) ->
       exists p e,
         prompts (snd (chat uuid4 time_time create_text payload w))
         = prompts w ++ [p]
         /\ create_text (length (prompts w)) p = Fails e
         /\ status = 500
         /\ detail = lit "Model error: " ++ e.
Proof.
  destruct (chat_follows_path uuid4 time_time create_text payload w)
    as (sid & _ & Hpath).
  destruct (chat uuid4 time_time create_text payload w) as [out w'].
  simpl in *.
  inversion Hpath; subst; (split; [eauto|]);
    intros status detail Hout; try discriminate.
  injection Hout as <- <-. eauto 10.
Qed.

(** * Blank content *)

Lemma lstrip_blank (s : str) : forallb isspace s = true -> lstrip s = [].
Proof.
  induction s as [|c s IH]; simpl; [reflexivity|].
  intros H. apply andb_true_iff in H as [Hc Hs]. now rewrite Hc, IH.
Qed.

(** X19: content made of whitespace alone, the empty content included,
    is trimmed to nothing, and only such content is: the line of such a
    turn is its label, colon and space, with nothing after. *)
Theorem blank_content_leaves_the_bare_label (c : str) (t : Z) :
  (strip c = [] <-> forallb isspace c = true)
  /\ (forallb isspace c = true ->
      prompt_line (mkMsg user c t) = lit "User: "
      /\ prompt_line (mkMsg assistant c t) = lit "Assistant: ").
Proof.
  assert (Hblank : forallb isspace c = true -> strip c = []).
  { intros H. unfold strip. now rewrite (lstrip_blank c H). }
  split; [split; [|exact Hblank]|].
  - intros E. destruct (strip_trims c) as [(l & r & Hc & Hl & Hr) _].
    rewrite E in Hc. rewrite Hc. simpl.
    now rewrite forallb_app, Hl, Hr.
  - intros H. unfold prompt_line. cbn [role content].
    rewrite (Hblank H), !app_nil_r. split; reflexivity.
Qed.

(** * The allowed origins *)

Lemma join_after (sep : str) (parts : list str) :
  parts <> [] ->
  flat_map (fun q => sep ++ q) parts = sep ++ join sep parts.
Proof.
  destruct parts as [|p rest]; [easy|]. intros _. simpl.
  now rewrite <- app_assoc.
Qed.

Lemma str_split_nonempty (sep : N) (s : str) : str_split sep s <> [].
Proof.
  destruct s as [|c rest]; simpl; [discriminate|].
  destruct (c =? sep)%N; [discriminate|].
  destruct (str_split sep rest); discriminate.
Qed.

Lemma join_str_split (sep : N) (s : str) :
  join [sep] (str_split sep s) = s.
Proof.
  induction s as [|c rest IH]; [reflexivity|]. simpl str_split.
  destruct (N.eqb_spec c sep) as [->|Hneq].
  - unfold join at 1. rewrite join_after by apply str_split_nonempty.
    rewrite IH. reflexivity.
  - pose proof (str_split_nonempty sep rest) as Hne.
    destruct (str_split sep rest) as [|piece pieces]; [contradiction|].
    simpl in *. now rewrite <- IH.
Qed.

Lemma str_split_pieces (sep : N) (s : str) :
  Forall (fun piece => ~ In sep piece) (str_split sep s).
Proof.
  induction s as [|c rest IH]; simpl; [repeat constructor; easy|].
  destruct (N.eqb_spec c sep) as [->|Hneq].
  - constructor; [easy|assumption].
  - destruct (str_split sep rest) as [|piece pieces];
      [repeat constructor; intros [E|[]]; congruence|].
    apply Forall_cons_iff in IH as [Hp Hps].
    constructor; [|assumption]. intros [E|Hin]; [congruence|contradiction].
Qed.

(** X20: the allowed origins are the setting cut at its commas and
    nothing else: joined by commas they give the setting back, so blanks
    around a comma stay part of an origin; there is at least one origin,
    none contains a comma, and with the variable not set they are the two
    local origins. *)
Theorem allowed_origins_are_the_setting_cut_at_commas (v : str) :
  join [comma] (ALLOWED_ORIGINS (Some v)) = v
  /\ ALLOWED_ORIGINS (Some v) <> []
  /\ Forall (fun origin => ~ In comma origin) (ALLOWED_ORIGINS (Some v))
  /\ ALLOWED_ORIGINS None
     = [lit "http://127.0.0.1:5500"; lit "http://localhost:5500"].
Proof.
  unfold ALLOWED_ORIGINS. split; [apply join_str_split|].
  split; [apply str_split_nonempty|].
  split; [apply str_split_pieces|reflexivity].
Qed.

(** * Unbounded and carried-over context *)

Lemma refetch_has_every_row (sid : str) (n : Z) (table : list Row) (r : Row) :
  In r table -> row_session_id r = sid ->
  n < 0 \/ Z.of_nat (length (where_session sid table)) <= n * 2 ->
  In (select_columns r) (rev (select_recent sid (n * 2) table)).
Proof.
  intros Hin Hsid Hlarge. apply in_rev. rewrite rev_involutive.
  unfold select_recent. rewrite sql_limit_all.
  - apply in_map. eapply Permutation_in; [symmetry; apply order_by_perm|].
    unfold where_session. apply filter_In. split; [assumption|].
    rewrite Hsid. apply str_eqb_refl.
  - rewrite order_by_length. lia.
Qed.

(** X21: a negative [history_limit] puts the whole session into the
    prompt: the turns the prompt is built from are then all the turns the
    table holds for the request's session once the user turn is written,
    that turn among them, none left out. *)
Theorem negative_limit_sends_the_whole_session
  (uuid4 : nat -> N) (time_time : nat -> Z)
  (create_text : nat -> str -> provider_result)
  (payload : ChatRequest) (n : Z) (w : World) (p : str) :
  history_limit payload = Some n -> n < 0 ->
  prompts (snd (chat uuid4 time_time create_text payload w))
  = prompts w ++ [p] ->
  exists sid seed mid now,
    let table := (messages w ++ seed)
                 ++ [mkRow mid sid user (text payload) now] in
    let convo := rev (select_recent sid (n * 2) table) in
    resolved uuid4 payload w sid
    /\ seeded sid (messages w) seed
    /\ (messages (snd (chat uuid4 time_time create_text payload w)) = table
        \/ exists r,
             messages (snd (chat uuid4 time_time create_text payload w))
             = table ++ [r])
    /\ p = prompt convo (text payload)
    /\ Permutation (map select_columns (where_session sid table)) convo
    /\ In (mkMsg user (text payload) now) convo.
Proof.
  intros Hlim Hneg Hsent.
  destruct (chat_sent_prompt uuid4 time_time create_text payload w p Hsent)
    as (sid & seed & mid & now & n0
        & Hsid & Hseed & Hlim0 & _ & Hp & Htable & _).
  assert (Hsame : n0 = n) by congruence. subst n0.
  exists sid, seed, mid, now. cbv zeta.
  split; [assumption|]. split; [assumption|]. split; [exact Htable|].
  split; [exact Hp|]. split.
  - unfold select_recent. rewrite sql_limit_all by (left; lia).
    rewrite <- Permutation_rev. apply Permutation_map.
    symmetry. apply order_by_perm.
  - apply (refetch_has_last_row sid n (messages w ++ seed)
             (mkRow mid sid user (text payload) now) eq_refl).
    left. exact Hneg.
Qed.

Lemma negative_limit_sends_the_whole_session_witness :
  exists sid seed mid now,
    let payload := mkChatRequest (Some (lit "s")) (lit "more") (Some (-1)) in
    let table := (messages two_turns ++ seed)
                 ++ [mkRow mid sid user (text payload) now] in
    let convo := rev (select_recent sid (-1 * 2) table) in
    resolved sample_uuid4 payload two_turns sid
    /\ seeded sid (messages two_turns) seed
    /\ (messages (snd (chat sample_uuid4 same_second provider_up payload
                         two_turns)) = table
        \/ exists r,
             messages (snd (chat sample_uuid4 same_second provider_up
                              payload two_turns))
             = table ++ [r])
    /\ prompt [mkMsg assistant greeting 1; mkMsg user (lit "hi") 2;
               mkMsg user (lit "more") 1700000000] (lit "more")
       = prompt convo (text payload)
    /\ Permutation (map select_columns (where_session sid table)) convo
    /\ In (mkMsg user (text payload) now) convo.
Proof.
  apply (negative_limit_sends_the_whole_session sample_uuid4 same_second
           provider_up
           (mkChatRequest (Some (lit "s")) (lit "more") (Some (-1)))
           (-1) two_turns
           (prompt [mkMsg assistant greeting 1; mkMsg user (lit "hi") 2;
                    mkMsg user (lit "more") 1700000000] (lit "more"))).
  - reflexivity.
  - lia.
  - vm_compute. reflexivity.
Defined.

(** X22: history is not rolled back, so a failed turn is context for the
    next request: when a request naming a session ends in an
    [HTTPException], the next request on that session whose limit covers
    the session (or is negative) sends a prompt that has the line of the
    failed request's user turn. *)
Theorem failed_turn_is_context_for_the_next_request
  (uuid4 : nat -> N) (time_time : nat -> Z)
  (create_text : nat -> str -> provider_result)
  (failed next : ChatRequest) (sid : str) (n : Z) (w : World) (p : str)
  (status : Z) (detail : str) :
  let w1 := snd (chat uuid4 time_time create_text failed w) in
  let w2 := snd (chat uuid4 time_time create_text next w1) in
  session_id failed = Some sid -> session_id next = Some sid -> sid <> [] ->
  fst (chat uuid4 time_time create_text failed w)
  = Raise (HTTPException status detail) ->
  history_limit next = Some n ->
  n < 0 \/ Z.of_nat (length (where_session sid (messages w1))) + 1 <= n * 2 ->
  prompts w2 = prompts w1 ++ [p] ->
  where_session sid (messages w1) <> []
  /\ exists convo before after,
       p = prompt convo (text next)
       /\ prompt_lines convo (text next)
          = before ++ [lit "User: " ++ strip (text failed)] ++ after.
Proof.
  intros w1 w2 Hnamed1 Hnamed2 Hsid Hfailed Hlim Hlarge Hsent.
  assert (Hsame : forall payload w0 s,
             session_id payload = Some sid ->
             resolved uuid4 payload w0 s -> s = sid).
  { intros payload w0 s Hnamed Hres. unfold resolved in Hres.
    rewrite Hnamed in Hres. destruct sid; [contradiction|assumption]. }
  (* the failed request left its user turn as the last row *)
  assert (Hkept : exists older mid now,
             messages w1 = older ++ [mkRow mid sid user (text failed) now]).
  { destruct (chat_follows_path uuid4 time_time create_text failed w)
      as (s & Hres & Hpath).
    apply (Hsame failed w s Hnamed1) in Hres. subst s. subst w1.
    destruct (chat uuid4 time_time create_text failed w) as [out w'].
    simpl in *. subst out. inversion Hpath; subst.
    exists (messages w ++ seed), mid, now. reflexivity. }
  destruct Hkept as (older & mid & now & Hw1).
  set (u := mkRow mid sid user (text failed) now) in *.
  assert (Hlive : where_session sid (messages w1) <> []).
  { rewrite Hw1, where_session_snoc_same by reflexivity.
    now destruct (where_session sid older). }
  split; [exact Hlive|].
  (* the next request reads it back *)
  destruct (chat_follows_path uuid4 time_time create_text next w1)
    as (s & Hres & Hpath).
  apply (Hsame next w1 s Hnamed2) in Hres. subst s. subst w2.
  destruct (chat uuid4 time_time create_text next w1) as [out w'].
  simpl in Hsent, Hpath. rewrite Hsent in Hpath.
  assert (Hp : forall seed mid' now',
             seeded sid (messages w1) seed ->
             p = chat_prompt next sid n
                   ((messages w1 ++ seed) ++ [user_turn next sid mid' now']) ->
             exists convo before after,
               p = prompt convo (text next)
               /\ prompt_lines convo (text next)
                  = before ++ [lit "User: " ++ strip (text failed)] ++ after).
  { intros seed mid' now' Hseed Hsame'.
    assert (seed = []) as ->
        by (destruct Hseed as [[_ ->]|[Hnone _]];
            [reflexivity|contradiction]).
    rewrite app_nil_r in Hsame'.
    set (table := messages w1 ++ [user_turn next sid mid' now']) in *.
    assert (Hin : In (select_columns u)
                     (rev (select_recent sid (n * 2) table))).
    { apply refetch_has_every_row; [|reflexivity|].
      - unfold table. rewrite Hw1. apply in_or_app. left.
        apply in_or_app. right. now left.
      - unfold table. rewrite where_session_snoc_same by reflexivity.
        rewrite length_app. cbn [length]. lia. }
    destruct (prompt_lines_of_member _ (text next) _ Hin)
      as (before & between & Hlines).
    exists (rev (select_recent sid (n * 2) table)), before,
           (between ++ [lit "User: " ++ text next]).
    split; [exact Hsame'|exact Hlines]. }
  inversion Hpath; subst;
    try (exfalso; eapply not_longer; eassumption);
    match goal with
    | H : _ ++ [_] = _ ++ [_] |- _ => apply same_last in H
    end;
    match goal with
    | H : history_limit next = Some ?m |- _ =>
        rewrite Hlim in H; injection H as <-
    end;
    eapply Hp; eauto.
Qed.

Lemma failed_turn_is_context_for_the_next_request_witness :
  where_session (lit "s")
    (messages (snd (chat sample_uuid4 ticking_clock provider_down
                      (mkChatRequest (Some (lit "s")) (lit "hi") (Some 10))
                      one_turn))) <> []
  /\ exists convo before after,
       prompt [mkMsg assistant greeting 1;
               mkMsg user (lit "hi") 1700000000;
               mkMsg user (lit "and then?") 1700000001] (lit "and then?")
       = prompt convo (text second_request)
       /\ prompt_lines convo (text second_request)
          = before
            ++ [lit "User: "
                ++ strip (text (mkChatRequest (Some (lit "s")) (lit "hi")
                                  (Some 10)))]
            ++ after.
Proof.
  apply (failed_turn_is_context_for_the_next_request
           sample_uuid4 ticking_clock provider_down
           (mkChatRequest (Some (lit "s")) (lit "hi") (Some 10))
           second_request (lit "s") 10 one_turn
           (prompt [mkMsg assistant greeting 1;
                    mkMsg user (lit "hi") 1700000000;
                    mkMsg user (lit "and then?") 1700000001]
              (lit "and then?"))
           500 (lit "Model error: quota exceeded")).
  - reflexivity.
  - reflexivity.
  - discriminate.
  - vm_compute. reflexivity.
  - reflexivity.
  - right. vm_compute. discriminate.
  - vm_compute. reflexivity.
Defined.
